(** * Serial Studio: plugin broadcast server, frame-parser loading and
      group reading

    A shallow embedding of three pieces of the application:

    - [Plugins::Server] (app/src/Plugins/Server.cpp), the TCP plugin
      broadcast server;
    - [JSON::FrameParser::loadScript] and [JSON::FrameParser::parse]
      (app/src/JSON/FrameParser.cpp), the loading and invocation of the
      user-supplied JavaScript parsing function;
    - [JSON::Group::read] (app/src/JSON/Group.cpp).

    Qt classes are modelled by the part of their behaviour the code relies
    on: a [QString] is a string of 8-bit characters, a [QJsonValue] is an
    inductive tree, a [QTcpSocket *] is an address into a store of socket
    records, and the JavaScript engine is an interface with the operations
    the code calls. *)

From stdpp Require Import base gmap list strings pretty.
From Equations Require Import Equations.
From Stdlib Require Import Ascii ZArith Lia.

Set Warnings "-register-all".
Local Open Scope string_scope.
Local Open Scope list_scope.

(** ** Qt value types *)

Module Qt.

Definition QString := string.
Definition QByteArray := string.
Definition QStringList := list QString.

(** [QChar::isSpace] on the characters the model has, the code points 0 to
    255: the characters 9 to 13, the space, the next-line character 133
    and the no-break space 160. *)
Definition isSpace (c : ascii) : bool :=
  let n := nat_of_ascii c in
  ((9 <=? n)%nat && (n <=? 13)%nat) || (n =? 32)%nat
  || (n =? 133)%nat || (n =? 160)%nat.

(** [QString::simplified]: whitespace removed from both ends, every inner
    run of whitespace replaced by one space. [started] says a non-space
    character has been copied, [pending] that whitespace was seen after it. *)
Fixpoint simplified_from (pending started : bool) (s : QString) : QString :=
  match s with
  | EmptyString => EmptyString
  | String c r =>
      if isSpace c then simplified_from started started r
      else if pending
           then String " "%char (String c (simplified_from false true r))
           else String c (simplified_from false true r)
  end.

Definition simplified (s : QString) : QString := simplified_from false false s.

Definition QString_isEmpty (s : QString) : bool :=
  match s with EmptyString => true | _ => false end.

(** [QJsonValue]. A [QJsonObject] is kept as the list of its members; a
    number carries an integer, which is all the modelled code looks at. *)
Inductive QJsonValue : Type :=
| JNull
| JUndefined
| JBool (b : bool)
| JNumber (n : Z)
| JString (s : QString)
| JArray (a : list QJsonValue)
| JObject (o : list (QString * QJsonValue)).

Definition QJsonArray := list QJsonValue.
Definition QJsonObject := list (QString * QJsonValue).

Definition QJsonObject_isEmpty (o : QJsonObject) : bool :=
  match o with [] => true | _ => false end.

Definition QJsonArray_isEmpty (a : QJsonArray) : bool :=
  match a with [] => true | _ => false end.

Fixpoint QJsonObject_contains (o : QJsonObject) (key : QString) : bool :=
  match o with
  | [] => false
  | (k, _) :: r => if String.eqb k key then true else QJsonObject_contains r key
  end.

(** [QJsonObject::value]: the member's value, [Undefined] when absent. *)
Fixpoint QJsonObject_value (o : QJsonObject) (key : QString) : QJsonValue :=
  match o with
  | [] => JUndefined
  | (k, v) :: r => if String.eqb k key then v else QJsonObject_value r key
  end.

(** [QJsonObject::insert]: replaces the member when the key exists. *)
Fixpoint QJsonObject_insert (o : QJsonObject) (key : QString) (v : QJsonValue)
  : QJsonObject :=
  match o with
  | [] => [(key, v)]
  | (k, w) :: r =>
      if String.eqb k key then (k, v) :: r
      else (k, w) :: QJsonObject_insert r key v
  end.

Definition toArray (v : QJsonValue) : QJsonArray :=
  match v with JArray a => a | _ => [] end.

Definition toObject (v : QJsonValue) : QJsonObject :=
  match v with JObject o => o | _ => [] end.

(** A [QVariant] that holds a [QJsonValue] converts to a [QString] only when
    the value is a JSON string; every other kind gives the empty string. *)
Definition QVariant_toString (v : QJsonValue) : QString :=
  match v with JString s => s | _ => EmptyString end.

(** What the code reports to the operator or emits, in program order. *)
Inductive Effect : Type :=
| MessageBox (text informativeText : QString)
| Debug (text : QString)
| Emit (signal : QString).

End Qt.

(** ** Plugins::Server *)

Module Plugins.
Module Server.
Import Qt.

(** A [QTcpSocket *] is an address; address 0 is [nullptr]. *)
Definition QTcpSocketPtr := nat.
Definition nullptr : QTcpSocketPtr := 0%nat.

Inductive SocketState : Type := Connected | Closing | Closed.

Record QTcpSocket : Type := mkSocket {
  sock_state : SocketState;
  sock_writable : bool;          (* isWritable() *)
  sock_inbox : QByteArray;       (* what readAll() returns *)
  sock_outbox : list QByteArray; (* the arguments of write(), oldest first *)
  sock_deleteLater : bool        (* deleteLater() was called *)
}.

Definition isWritable (k : QTcpSocket) : bool := sock_writable k.

Definition write (json : QByteArray) (k : QTcpSocket) : QTcpSocket :=
  mkSocket (sock_state k) (sock_writable k) (sock_inbox k)
           (sock_outbox k ++ [json]) (sock_deleteLater k).

(** The socket record once the connection is reset: closed and
    unwritable. [abort()] and [close()] both end there; what [abort()]
    does beside it is in [abort] below. [close()] is only called on a
    socket that no slot is connected to yet. *)
Definition resetSocket (k : QTcpSocket) : QTcpSocket :=
  mkSocket Closed false (sock_inbox k) (sock_outbox k) (sock_deleteLater k).

Definition close (k : QTcpSocket) : QTcpSocket := resetSocket k.

Definition deleteLater (k : QTcpSocket) : QTcpSocket :=
  mkSocket (sock_state k) (sock_writable k) (sock_inbox k)
           (sock_outbox k) true.

Definition readAll (k : QTcpSocket) : QByteArray * QTcpSocket :=
  (sock_inbox k,
   mkSocket (sock_state k) (sock_writable k) EmptyString
            (sock_outbox k) (sock_deleteLater k)).

(** The loop of [removeConnection]:
    [for (i = 0; i < count; ++i) if (at(i) == socket) { removeAt(i); i = 0; }].
    After a removal the index is set to 0 and then incremented, so the scan
    resumes at index 1. *)
Equations? removeConnection_loop (socket : QTcpSocketPtr) (i : nat)
  (l : list QTcpSocketPtr) : list QTcpSocketPtr
  by wf (length l * length l + (length l - i))%nat lt :=
  removeConnection_loop socket i l with lt_dec i (length l) => {
    | right _ => l
    | left _ with decide (l !! i = Some socket) => {
        | left _ => removeConnection_loop socket 1 (delete i l)
        | right _ => removeConnection_loop socket (S i) l } }.
Proof.
  - rewrite length_delete by (rewrite e; eauto). nia.
  - lia.
Qed.

Section WithFrame.

(** [JSON::Frame] and the Qt serialisers are outside the modelled files. *)
Context {Frame : Type}.
Context (Frame_serialize : Frame -> QJsonObject).
Context (toJson : QJsonObject -> QByteArray).   (* QJsonDocument::Compact *)
Context (toBase64 : QByteArray -> QByteArray).

Record State : Type := mkState {
  m_enabled : bool;
  m_sockets : list QTcpSocketPtr;
  m_frames : list Frame;
  heap : gmap nat QTcpSocket;           (* the sockets the pointers denote *)
  pending : list QTcpSocketPtr;         (* m_server's pending connections *)
  io_written : list QByteArray;         (* IO::Manager::writeData arguments *)
  effects : list Effect
}.

Definition with_enabled (b : bool) (s : State) : State :=
  mkState b (m_sockets s) (m_frames s) (heap s) (pending s) (io_written s)
          (effects s).
Definition with_sockets (l : list QTcpSocketPtr) (s : State) : State :=
  mkState (m_enabled s) l (m_frames s) (heap s) (pending s) (io_written s)
          (effects s).
Definition with_frames (l : list Frame) (s : State) : State :=
  mkState (m_enabled s) (m_sockets s) l (heap s) (pending s) (io_written s)
          (effects s).
Definition with_heap (h : gmap nat QTcpSocket) (s : State) : State :=
  mkState (m_enabled s) (m_sockets s) (m_frames s) h (pending s)
          (io_written s) (effects s).
Definition with_pending (l : list QTcpSocketPtr) (s : State) : State :=
  mkState (m_enabled s) (m_sockets s) (m_frames s) (heap s) l
          (io_written s) (effects s).
Definition writeData (d : QByteArray) (s : State) : State :=
  mkState (m_enabled s) (m_sockets s) (m_frames s) (heap s) (pending s)
          (io_written s ++ [d]) (effects s).
Definition effect (e : Effect) (s : State) : State :=
  mkState (m_enabled s) (m_sockets s) (m_frames s) (heap s) (pending s)
          (io_written s) (effects s ++ [e]).

(** Applies a socket method through a pointer. *)
Definition on_socket (f : QTcpSocket -> QTcpSocket) (p : QTcpSocketPtr)
  (s : State) : State :=
  with_heap (alter f p (heap s)) s.

(** The constructor: disabled, nothing connected, nothing queued. A failed
    [listen] is reported in a message box. *)
Definition Server (listen_ok : bool) (errorString : QString) : State :=
  let s := mkState false [] [] ∅ [] [] [] in
  if listen_ok then s
  else effect (MessageBox "Unable to start plugin TCP server" errorString) s.

Definition enabled (s : State) : bool := m_enabled s.

Definition removeConnection (sender : QTcpSocketPtr) (s : State) : State :=
  let socket := sender in
  if decide (socket = nullptr) then s
  else
    let s := with_sockets (removeConnection_loop socket 0 (m_sockets s)) s in
    on_socket deleteLater socket s.

(** [socket->abort()] for a socket of [m_sockets]. On a socket that is
    not closed already, [abort()] resets the connection and emits
    [disconnected()] before it returns; [acceptConnection] connected that
    signal to [removeConnection], so the slot runs at once with the socket
    as its sender. On a closed socket [abort()] returns at once. *)
Definition abort (socket : QTcpSocketPtr) (s : State) : State :=
  match heap s !! socket with
  | Some k =>
      match sock_state k with
      | Closed => s
      | _ => removeConnection socket (on_socket resetSocket socket s)
      end
  | None => s
  end.

(** The body of the loop of [setEnabled(false)] for [socket = at(i)]. *)
Definition abort_step (s : State) (socket : QTcpSocketPtr) : State :=
  if decide (socket = nullptr) then s
  else on_socket deleteLater socket (abort socket s).

(** The loop of [setEnabled(false)]:
    [for (i = 0; i < m_sockets.count(); ++i)] on the list as it is at each
    test, which the slot run by [abort()] may have shortened. *)
Equations? setEnabled_loop (i : nat) (s : State) : State
  by wf (length (m_sockets s) - i)%nat lt :=
  setEnabled_loop i s with lt_dec i (length (m_sockets s)) => {
    | right _ => s
    | left _ =>
        setEnabled_loop (S i)
          (abort_step s (default nullptr (m_sockets s !! i))) }.
Proof.
  clear setEnabled_loop.
  assert (Hloop : forall c j l, length (removeConnection_loop c j l) <= length l).
  { intros c j l0.
    apply (removeConnection_loop_elim
             (fun _ _ l1 r => length r <= length l1)); [lia | | lia].
    intros c' j' l1 Hat _ IH _ _.
    rewrite length_delete in IH by (rewrite Hat; eauto). lia. }
  enough (length (m_sockets (abort_step s (default nullptr (m_sockets s !! i))))
          <= length (m_sockets s)) by lia.
  unfold abort_step, abort, removeConnection.
  repeat (case_decide || case_match); simpl; try lia; apply Hloop.
Qed.

Definition setEnabled (enabled : bool) (s : State) : State :=
  let s := with_enabled enabled s in
  let s := effect (Emit "enabledChanged") s in
  let s :=
    if negb enabled
    then with_sockets [] (setEnabled_loop 0 s)
    else s in
  with_frames [] s.

Definition onDataReceived (sender : QTcpSocketPtr) (s : State) : State :=
  let socket := sender in
  if enabled s && negb (bool_decide (socket = nullptr)) then
    match heap s !! socket with
    | Some k =>
        let '(data, k') := readAll k in
        writeData data (with_heap (<[socket := k']> (heap s)) s)
    | None => s
    end
  else s.

(** [QTcpServer::nextPendingConnection]: the oldest pending connection, or
    [nullptr] when there is none. *)
Definition nextPendingConnection (s : State) : QTcpSocketPtr * State :=
  match pending s with
  | [] => (nullptr, s)
  | p :: r => (p, with_pending r s)
  end.

Definition acceptConnection (s : State) : State :=
  let '(socket, s) := nextPendingConnection s in
  if bool_decide (socket = nullptr) && enabled s then
    effect (MessageBox "Plugin server" "Invalid pending connection") s
  else if negb (enabled s) then
    if decide (socket = nullptr) then s
    else on_socket deleteLater socket (on_socket close socket s)
  else
    with_sockets (m_sockets s ++ [socket]) s.

(** The body of [Q_FOREACH (auto socket, m_sockets)] in both senders. *)
Definition send_to (json : QByteArray) (s : State) (socket : QTcpSocketPtr)
  : State :=
  if decide (socket = nullptr) then s
  else match heap s !! socket with
       | Some k => if isWritable k then on_socket (write json) socket s else s
       | None => s
       end.

Definition broadcast (json : QByteArray) (s : State) : State :=
  foldl (send_to json) s (m_sockets s).

Definition newline : QByteArray := String (ascii_of_nat 10) EmptyString.

Definition sendProcessedData (s : State) : State :=
  if negb (enabled s) then s
  else if (length (m_frames s) <=? 0)%nat then s
  else if (length (m_sockets s) <? 1)%nat then s
  else
    let array : QJsonArray :=
      map (fun frame =>
             JObject (QJsonObject_insert [] "data"
                        (JObject (Frame_serialize frame))))
          (m_frames s) in
    let s :=
      if (0 <? length array)%nat then
        let object := QJsonObject_insert [] "frames" (JArray array) in
        let json := toJson object +:+ newline in
        broadcast json s
      else s in
    with_frames [] s.

Definition sendRawData (data : QByteArray) (s : State) : State :=
  if negb (enabled s) then s
  else if (length (m_sockets s) <? 1)%nat then s
  else
    let object := QJsonObject_insert [] "data" (JString (toBase64 data)) in
    let json := toJson object +:+ newline in
    broadcast json s.

Definition registerFrame (frame : Frame) (s : State) : State :=
  if enabled s then with_frames (m_frames s ++ [frame]) s else s.

(** [onErrorOccurred] only prints: the socket's error string when there is
    a sender, the error code otherwise. *)
Definition onErrorOccurred (sender : QTcpSocketPtr) (socketError : QString)
  (errorString : QString) (s : State) : State :=
  let socket := sender in
  if decide (socket = nullptr) then effect (Debug socketError) s
  else effect (Debug errorString) s.

(** The events the reactor dispatches to the server, and the arrival of a
    connection request at the listening [QTcpServer]. *)
Inductive Event : Type :=
| EvIncoming (p : QTcpSocketPtr) (k : QTcpSocket)
| EvSetEnabled (b : bool)
| EvAcceptConnection
| EvRegisterFrame (f : Frame)
| EvSendProcessedData
| EvSendRawData (data : QByteArray)
| EvRemoveConnection (sender : QTcpSocketPtr)
| EvDataReceived (sender : QTcpSocketPtr)
| EvErrorOccurred (sender : QTcpSocketPtr) (socketError errorString : QString).

Definition handle (e : Event) (s : State) : State :=
  match e with
  | EvIncoming p k =>
      with_pending (pending s ++ [p]) (with_heap (<[p := k]> (heap s)) s)
  | EvSetEnabled b => setEnabled b s
  | EvAcceptConnection => acceptConnection s
  | EvRegisterFrame f => registerFrame f s
  | EvSendProcessedData => sendProcessedData s
  | EvSendRawData d => sendRawData d s
  | EvRemoveConnection p => removeConnection p s
  | EvDataReceived p => onDataReceived p s
  | EvErrorOccurred p e m => onErrorOccurred p e m s
  end.

Inductive reachable : State -> Prop :=
| reachable_init listen_ok errorString :
    reachable (Server listen_ok errorString)
| reachable_step e s :
    reachable s -> reachable (handle e s).

(** A socket that was closed and scheduled for deletion. *)
Definition torn_down (s : State) (p : QTcpSocketPtr) : Prop :=
  exists k, heap s !! p = Some k /\
            sock_state k = Closed /\ sock_deleteLater k = true.

(** What holds whenever the subsystem is disabled. *)
Definition disabled_idle (s : State) : Prop :=
  enabled s = false -> m_sockets s = [] /\ m_frames s = [].

End WithFrame.

End Server.
End Plugins.

(** ** JSON::FrameParser and JSON::Group *)

Module JSON.

Module FrameParser.
Import Qt.

(** [QJSValue::ErrorType]. *)
Inductive ErrorType : Type :=
| NoError | GenericError | EvalError | RangeError | ReferenceError
| SyntaxError | TypeError | URIError.

(** The part of [QJSEngine] and [QJSValue] the frame parser uses. The engine
    state holds the global object, which evaluating a script changes and
    which outlives a failed load. [evaluate] gives back the new engine and
    the list the code passes as [&errors]. *)
Class QJSEngine : Type := {
  Engine : Type;
  QJSValue : Type;
  QJSValue_undefined : QJSValue;                 (* QJSValue() *)
  QJSValue_fromString : QString -> QJSValue;
  installExtensions : Engine -> Engine;
  evaluate : Engine -> QString -> Engine * QStringList;
  globalProperty : Engine -> QString -> QJSValue;
  isNull : QJSValue -> bool;
  isCallable : QJSValue -> bool;
  isError : QJSValue -> bool;
  errorType : QJSValue -> ErrorType;
  call : Engine -> QJSValue -> list QJSValue -> Engine * QJSValue;
  toStringList : QJSValue -> QStringList         (* toVariant().toStringList() *)
}.

Section WithEngine.
Context `{QJSEngine}.

(** [calls] records every [QJSValue::call] the parser makes: the callee and
    its arguments, oldest first. *)
Record State : Type := mkState {
  m_engine : Engine;
  m_parseFunction : QJSValue;
  effects : list Effect;
  calls : list (QJSValue * list QJSValue)
}.

Definition with_engine (e : Engine) (s : State) : State :=
  mkState e (m_parseFunction s) (effects s) (calls s).
Definition with_parseFunction (f : QJSValue) (s : State) : State :=
  mkState (m_engine s) f (effects s) (calls s).
Definition showMessageBox (text informativeText : QString) (s : State) : State :=
  mkState (m_engine s) (m_parseFunction s)
          (effects s ++ [MessageBox text informativeText]) (calls s).

(** [f.call(args)]: runs in the engine and is recorded. *)
Definition do_call (f : QJSValue) (args : list QJSValue) (s : State)
  : QJSValue * State :=
  let '(e, ret) := call (m_engine s) f args in
  (ret, mkState e (m_parseFunction s) (effects s) (calls s ++ [(f, args)])).

(** [tr] is taken as the identity: no translation is loaded. *)
Definition errorStr (t : ErrorType) : QString :=
  match t with
  | GenericError => "Generic error"
  | EvalError => "Evaluation error"
  | RangeError => "Range error"
  | ReferenceError => "Reference error"
  | SyntaxError => "Syntax error"
  | TypeError => "Type error"
  | URIError => "URI error"
  | NoError => "Unknown error"
  end.

(** [QStringList::first] is only reached on a non-empty list. *)
Definition first (l : QStringList) : QString :=
  match l with x :: _ => x | [] => EmptyString end.

Definition QStringList_isEmpty (l : QStringList) : bool :=
  match l with [] => true | _ => false end.

Definition loadScript (script : QString) (s : State) : bool * State :=
  let s := with_engine (installExtensions (m_engine s)) s in
  let '(e, errors) := evaluate (m_engine s) script in
  let s := with_engine e s in
  let fun_ := globalProperty (m_engine s) "parse" in
  if isNull fun_ || negb (isCallable fun_) then
    (false,
     showMessageBox "Frame parser error!"
                    "No parse() function has been declared!" s)
  else
    let args := [QJSValue_fromString EmptyString; QJSValue_fromString ","] in
    let '(ret, s) := do_call fun_ args s in
    if negb (QStringList_isEmpty errors) then
      (false,
       showMessageBox "Frame parser syntax error!"
                      ("Error on line " +:+ first errors +:+ ".") s)
    else if isError ret then
      (false,
       showMessageBox "Frame parser error detected!"
                      (errorStr (errorType ret)) s)
    else
      (true, with_parseFunction fun_ s).

Definition parse (frame separator : QString) (s : State)
  : QStringList * State :=
  let args := [QJSValue_fromString frame; QJSValue_fromString separator] in
  let '(ret, s) := do_call (m_parseFunction s) args s in
  let out := toStringList ret in
  let list := foldl (fun (list : QStringList) x => list ++ [x]) [] out in
  (list, s).

(** The intermediate values of a load, named as in the code. *)
Definition load_errors (script : QString) (s : State) : QStringList :=
  snd (evaluate (installExtensions (m_engine s)) script).

Definition load_fun (script : QString) (s : State) : QJSValue :=
  globalProperty (fst (evaluate (installExtensions (m_engine s)) script))
                 "parse".

Definition load_ret (script : QString) (s : State) : QJSValue :=
  snd (call (fst (evaluate (installExtensions (m_engine s)) script))
            (load_fun script s)
            [QJSValue_fromString EmptyString; QJSValue_fromString ","]).

(** What a load adds to the record of calls and to the reported effects. *)
Definition load_calls (script : QString) (s : State)
  : list (QJSValue * list QJSValue) :=
  drop (length (calls s)) (calls (snd (loadScript script s))).

Definition load_effects (script : QString) (s : State) : list Effect :=
  drop (length (effects s)) (effects (snd (loadScript script s))).

(** The callee of the call [parse] makes. *)
Definition parse_callee (frame separator : QString) (s : State)
  : option QJSValue :=
  fst <$> last (calls (snd (parse frame separator s))).

(** The smoke arguments, the two load messages and the contract test, named
    for the statements about [loadScript]. *)
Definition smoke_args : list QJSValue :=
  [QJSValue_fromString EmptyString; QJSValue_fromString ","].

Definition missing_entry_point : Effect :=
  MessageBox "Frame parser error!" "No parse() function has been declared!".

Definition syntax_error (line : QString) : Effect :=
  MessageBox "Frame parser syntax error!" ("Error on line " +:+ line +:+ ".").

Definition no_entry_point (script : QString) (s : State) : bool :=
  isNull (load_fun script s) || negb (isCallable (load_fun script s)).

End WithEngine.
End FrameParser.

Module Group.
Import Qt.

Section WithDataset.

(** [JSON::Dataset] is outside the modelled files: its constructor
    [Dataset(groupId, datasetId)] and its [read], which gives the verdict
    and the dataset as read. *)
Context {Dataset : Type}.
Context (Dataset_new : Z -> Z -> Dataset).
Context (Dataset_read : Dataset -> QJsonObject -> bool * Dataset).

Record Group : Type := mkGroup {
  m_groupId : Z;
  m_title : QString;
  m_widget : QString;
  m_datasets : list Dataset
}.

(** The constructor [Group(groupId)]. *)
Definition Group_new (groupId : Z) : Group :=
  mkGroup groupId EmptyString EmptyString [].

(** [SAFE_READ]; the [QVariant] it returns is read back with [toString]
    only, so it is kept as the JSON value it was built from. *)
Definition SAFE_READ (object : QJsonObject) (key : QString)
  (defaultValue : QJsonValue) : QJsonValue :=
  if QJsonObject_contains object key then QJsonObject_value object key
  else defaultValue.

Definition datasetCount (g : Group) : nat := length (m_datasets g).

(** The [for] loop of [read], from index [i] on the rest of the array. *)
Fixpoint read_datasets (groupId : Z) (i : Z) (array : QJsonArray)
  (datasets : list Dataset) : list Dataset :=
  match array with
  | [] => datasets
  | v :: rest =>
      let object := toObject v in
      let datasets :=
        if negb (QJsonObject_isEmpty object) then
          let dataset := Dataset_new groupId i in
          let '(ok, dataset) := Dataset_read dataset object in
          if ok then datasets ++ [dataset] else datasets
        else datasets in
      read_datasets groupId (i + 1) rest datasets
  end.

Definition read (object : QJsonObject) (g : Group) : bool * Group :=
  if negb (QJsonObject_isEmpty object) then
    let array := toArray (QJsonObject_value object "datasets") in
    let title :=
      simplified (QVariant_toString
                    (SAFE_READ object "title" (JString EmptyString))) in
    let widget :=
      simplified (QVariant_toString
                    (SAFE_READ object "widget" (JString EmptyString))) in
    if negb (QString_isEmpty title) && negb (QJsonArray_isEmpty array) then
      let g := mkGroup (m_groupId g) title widget [] in
      let g := mkGroup (m_groupId g) (m_title g) (m_widget g)
                       (read_datasets (m_groupId g) 0 array (m_datasets g)) in
      ((0 <? datasetCount g)%nat, g)
    else (false, g)
  else (false, g).

End WithDataset.
End Group.

End JSON.

(** ** Concrete instances

    Small instances of the interfaces left open above, on which the model
    runs: a frame type for the server, a JavaScript engine that knows a
    handful of scripts, and a dataset reader. *)

Module Sample.
Import Qt.

(** *** Frames and serialisers for the server *)

Definition Frame := Z.

Definition Frame_serialize (f : Frame) : QJsonObject := [("id", JNumber f)].

Definition quote : QString := String (ascii_of_nat 34) EmptyString.

(** Compact JSON text, without escaping. *)
Fixpoint toJsonValue (v : QJsonValue) : QByteArray :=
  match v with
  | JNull | JUndefined => "null"
  | JBool b => if b then "true" else "false"
  | JNumber n => pretty n
  | JString s => quote +:+ s +:+ quote
  | JArray a =>
      "[" +:+
      (fix items (l : list QJsonValue) : QByteArray :=
         match l with
         | [] => EmptyString
         | x :: r =>
             toJsonValue x +:+
             match r with [] => EmptyString | _ => "," +:+ items r end
         end) a +:+ "]"
  | JObject o =>
      "{" +:+
      (fix members (l : list (QString * QJsonValue)) : QByteArray :=
         match l with
         | [] => EmptyString
         | (k, x) :: r =>
             quote +:+ k +:+ quote +:+ ":" +:+ toJsonValue x +:+
             match r with [] => EmptyString | _ => "," +:+ members r end
         end) o +:+ "}"
  end.

Definition toJson (o : QJsonObject) : QByteArray := toJsonValue (JObject o).

(** Stands in for [QByteArray::toBase64]: the bytes themselves behind a
    tag. Nothing proved below depends on the encoding. *)
Definition toBase64 (d : QByteArray) : QByteArray := "b64:" +:+ d.

Definition socket (writable : bool) : Plugins.Server.QTcpSocket :=
  Plugins.Server.mkSocket Plugins.Server.Connected writable EmptyString []
                          false.

(** Server states: enabled with a queued frame and nobody connected;
    enabled with a writable and an unwritable client; disabled with a
    connection request waiting. *)
Definition server_alone : @Plugins.Server.State Frame :=
  Plugins.Server.mkState true [] [7%Z] ∅ [] [] [].

Definition server_two_clients : @Plugins.Server.State Frame :=
  Plugins.Server.mkState true [1; 2]%nat [7%Z]
    (<[1%nat := socket true]> (<[2%nat := socket false]> ∅)) [] [] [].

Definition server_disabled_request : @Plugins.Server.State Frame :=
  Plugins.Server.mkState false [] []
    (<[3%nat := socket true]> ∅) [3%nat] [] [].

(** *** A JavaScript engine that knows four scripts *)

Inductive Body : Type :=
| BSplit                                    (* return frame.split(separator) *)
| BThrow (t : JSON.FrameParser.ErrorType).  (* throw new <t>() *)

Inductive Value : Type :=
| VUndefined
| VNull
| VNumber (n : Z)
| VString (s : QString)
| VArray (l : list QString)
| VFunction (b : Body)
| VError (t : JSON.FrameParser.ErrorType).

Definition script_split : QString :=
  "function parse(frame, separator) { return frame.split(separator); }".
Definition script_throw : QString :=
  "function parse(frame, separator) { throw new TypeError(); }".
Definition script_number : QString := "var parse = 42;".
Definition script_broken : QString := "function parse(frame, separator) {".

(** The global object is a map from names to values. A script that does not
    compile leaves it as it was and reports its first line. *)
Definition sample_evaluate (g : gmap string Value) (script : QString)
  : gmap string Value * QStringList :=
  if String.eqb script script_split then
    (<["parse" := VFunction BSplit]> g, [])
  else if String.eqb script script_throw then
    (<["parse" := VFunction (BThrow JSON.FrameParser.TypeError)]> g, [])
  else if String.eqb script script_number then
    (<["parse" := VNumber 42]> g, [])
  else if String.eqb script script_broken then (g, ["1"])
  else (g, []).

(** [split] on a one-character separator. *)
Fixpoint split_on (c : ascii) (s cur : QString) : list QString :=
  match s with
  | EmptyString => [cur]
  | String d r =>
      if Ascii.eqb c d then cur :: split_on c r EmptyString
      else split_on c r (cur +:+ String d EmptyString)
  end.

Definition sample_call (g : gmap string Value) (f : Value) (args : list Value)
  : gmap string Value * Value :=
  match f with
  | VFunction BSplit =>
      match args with
      | [VString frame; VString (String c EmptyString)] =>
          (g, VArray (split_on c frame EmptyString))
      | [VString frame; _] => (g, VArray [frame])
      | _ => (g, VError JSON.FrameParser.TypeError)
      end
  | VFunction (BThrow t) => (g, VError t)
  | _ => (g, VError JSON.FrameParser.TypeError)
  end.

#[export] Instance engine : JSON.FrameParser.QJSEngine := {|
  JSON.FrameParser.Engine := gmap string Value;
  JSON.FrameParser.QJSValue := Value;
  JSON.FrameParser.QJSValue_undefined := VUndefined;
  JSON.FrameParser.QJSValue_fromString := VString;
  JSON.FrameParser.installExtensions := fun g => g;
  JSON.FrameParser.evaluate := sample_evaluate;
  JSON.FrameParser.globalProperty :=
    fun g name => default VUndefined (g !! name);
  JSON.FrameParser.isNull :=
    fun v => match v with VNull => true | _ => false end;
  JSON.FrameParser.isCallable :=
    fun v => match v with VFunction _ => true | _ => false end;
  JSON.FrameParser.isError :=
    fun v => match v with VError _ => true | _ => false end;
  JSON.FrameParser.errorType :=
    fun v => match v with VError t => t | _ => JSON.FrameParser.NoError end;
  JSON.FrameParser.call := sample_call;
  JSON.FrameParser.toStringList :=
    fun v => match v with VArray l => l | VString s => [s] | _ => [] end
|}.

(** A field separator as the project may configure it. *)
Definition configured_separator : QString := ";".

(** The parser as constructed, before any script is loaded, and after the
    splitting script was loaded. *)
Definition parser0 : JSON.FrameParser.State :=
  JSON.FrameParser.mkState (∅ : gmap string Value) VUndefined [] [].

Definition parser1 : JSON.FrameParser.State :=
  snd (JSON.FrameParser.loadScript script_split parser0).

(** *** A dataset reader *)

Record Dataset : Type := mkDataset {
  d_groupId : Z;
  d_index : Z;
  d_title : QString
}.

Definition Dataset_new (groupId index : Z) : Dataset :=
  mkDataset groupId index EmptyString.

(** Accepts an object whose title is not empty. *)
Definition Dataset_read (d : Dataset) (o : QJsonObject) : bool * Dataset :=
  let title := QVariant_toString (QJsonObject_value o "title") in
  if QString_isEmpty title then (false, d)
  else (true, mkDataset (d_groupId d) (d_index d) title).

(** A group as read earlier, and two objects to read into it: one whose
    only dataset entry is [null], one with a dataset that has a title. *)
Definition group_old : @JSON.Group.Group Dataset :=
  JSON.Group.mkGroup 1 "Old title" "map" [mkDataset 1 0 "Latitude"].

Definition object_null_dataset : QJsonObject :=
  [("title", JString "New title"); ("datasets", JArray [JNull])].

Definition object_one_dataset : QJsonObject :=
  [("title", JString "  New   title "); ("widget", JString "gps");
   ("datasets", JArray [JNull; JObject [("title", JString "Altitude")]])].

End Sample.

(** ** The server's messages, deliveries and runs *)

Module ServerRuns.
Import Qt Plugins.Server.

Section WithFrame.
Context {Frame : Type}.
Context (Frame_serialize : Frame -> QJsonObject).
Context (toJson : QJsonObject -> QByteArray).
Context (toBase64 : QByteArray -> QByteArray).

(** The text [sendProcessedData] builds for a list of frames, and the text
    [sendRawData] builds for a chunk of bytes. *)
Definition frames_message (frames : list Frame) : QByteArray :=
  toJson (QJsonObject_insert [] "frames"
            (JArray (map (fun frame =>
                            JObject (QJsonObject_insert [] "data"
                                       (JObject (Frame_serialize frame))))
                         frames)))
  +:+ newline.

Definition raw_message (data : QByteArray) : QByteArray :=
  toJson (QJsonObject_insert [] "data" (JString (toBase64 data))) +:+ newline.

(** What one pass of the sending loop does to a socket it visits. *)
Definition deliver (json : QByteArray) (k : QTcpSocket) : QTcpSocket :=
  if isWritable k then write json k else k.

(** The socket store after [json] went once to every non-null socket of
    [l]. *)
Definition delivered (json : QByteArray) (l : list QTcpSocketPtr)
  (h : gmap nat QTcpSocket) (p : QTcpSocketPtr) : option QTcpSocket :=
  if decide (p ∈ l /\ p <> nullptr) then deliver json <$> h !! p else h !! p.

(** A connection request is admissible when its socket is a new object: not
    null, not connected, not already waiting. Every other event is
    admissible in every state. *)
Definition admissible (e : @Event Frame) (s : @State Frame) : Prop :=
  match e with
  | EvIncoming p _ => p <> nullptr /\ (p ∉ m_sockets s) /\ (p ∉ pending s)
  | _ => True
  end.

Inductive run : @State Frame -> Prop :=
| run_init listen_ok errorString :
    run (Server listen_ok errorString)
| run_step e s :
    run s -> admissible e s ->
    run (handle Frame_serialize toJson toBase64 e s).

Definition connections_distinct (s : @State Frame) : Prop :=
  NoDup (m_sockets s ++ pending s) /\
  (nullptr ∉ m_sockets s) /\ (nullptr ∉ pending s).

End WithFrame.
End ServerRuns.

(** ** JSON::Group::serialize *)

Module GroupSerialize.
Import Qt JSON.Group.

Section WithDataset.
Context {Dataset : Type}.
Context (Dataset_serialize : Dataset -> QJsonObject).

Definition serialize (g : @Group Dataset) : QJsonObject :=
  let datasetArray : QJsonArray :=
    foldl (fun datasetArray dataset =>
             datasetArray ++ [JObject (Dataset_serialize dataset)])
          [] (m_datasets g) in
  let object : QJsonObject := [] in
  let object := QJsonObject_insert object "title"
                  (JString (simplified (m_title g))) in
  let object := QJsonObject_insert object "widget"
                  (JString (simplified (m_widget g))) in
  let object := QJsonObject_insert object "datasets" (JArray datasetArray) in
  object.

(** The datasets [read] builds from an array: the verdict and the dataset
    for the non-empty object at position [i], nothing for anything else. *)
Definition read_element (Dataset_new : Z -> Z -> Dataset)
  (Dataset_read : Dataset -> QJsonObject -> bool * Dataset)
  (groupId : Z) (i : nat) (v : QJsonValue) : option Dataset :=
  if QJsonObject_isEmpty (toObject v) then None
  else
    let '(ok, dataset) :=
      Dataset_read (Dataset_new groupId (Z.of_nat i)) (toObject v) in
    if ok then Some dataset else None.

End WithDataset.
End GroupSerialize.

(** ** Widgets::MultiPlot *)

Module Widgets.
Module MultiPlot.
Import Qt.

(** [QJsonArray::at]: [Undefined] when the index is out of bounds. *)
Definition QJsonArray_at (a : QJsonArray) (i : Z) : QJsonValue :=
  if (0 <=? i)%Z && (i <? Z.of_nat (length a))%Z
  then default JUndefined (a !! Z.to_nat i)
  else JUndefined.

(** [QJsonValue::toString]: the string, or the null string for a value of
    another kind. *)
Definition QJsonValue_toString (v : QJsonValue) : QString :=
  match v with JString s => s | _ => EmptyString end.

(** The largest [int]. *)
Definition INT_MAX : Z := 2147483647.

(** [QVector::resize]: cut, or fill up with default-constructed items. *)
Definition resize {A} (d : A) (n : nat) (l : list A) : list A :=
  take n l ++ replicate (n - length l) d.

Section WithDashboard.

(** [JSON::Dataset::index] and the number type of the plots are outside the
    modelled files; [qreal_of_int] is the conversion from [int]. *)
Context {Dataset : Type}.
Context (Dataset_index : Dataset -> Z).
Context {qreal : Type}.
Context (qreal_of_int : Z -> qreal).

Definition QPointF : Type := qreal * qreal.

(** What the widget reads from [UI::Dashboard]. *)
Record Dashboard : Type := mkDashboard {
  multiplots : list (@JSON.Group.Group Dataset);
  points : Z;
  multiplotValues : list (list (list qreal))
}.

Definition multiPlotCount (dash : Dashboard) : Z :=
  Z.of_nat (length (multiplots dash)).

Record State : Type := mkState {
  m_index : Z;
  m_minX : qreal;
  m_maxX : qreal;
  m_minY : qreal;
  m_maxY : qreal;
  m_colors : QStringList;
  m_data : list (list QPointF);
  effects : list Effect
}.

Definition count (w : State) : Z := Z.of_nat (length (m_data w)).

(** The colour of one dataset in [onThemeChanged]. The remainder is taken
    with divisor [index]; a zero divisor has no result. *)
Definition pick_color (colors : QJsonArray) (index : Z) : option QString :=
  if (index <? Z.of_nat (length colors))%Z
  then Some (QJsonValue_toString (QJsonArray_at colors index))
  else if (index =? 0)%Z then None
  else Some (QJsonValue_toString
               (QJsonArray_at colors (Z.rem (Z.of_nat (length colors)) index))).

(** The loop of [onThemeChanged], from position [i] on. *)
Fixpoint assign_colors (colors : QJsonArray) (i : nat)
  (datasets : list Dataset) (m_colors : QStringList) : option QStringList :=
  match datasets with
  | [] => Some m_colors
  | dataset :: rest =>
      let index := (Dataset_index dataset - 1)%Z in
      match pick_color colors index with
      | None => None
      | Some color => assign_colors colors (S i) rest (<[i := color]> m_colors)
      end
  end.

(** [colors] is the theme's "widget_colors" array. *)
Definition onThemeChanged (colors : QJsonArray) (dash : Dashboard)
  (w : State) : option State :=
  let m_colors : QStringList := [] in
  let result :=
    if (0 <=? m_index w)%Z && (m_index w <? multiPlotCount dash)%Z then
      match multiplots dash !! Z.to_nat (m_index w) with
      | Some group =>
          let m_colors :=
            resize EmptyString (JSON.Group.datasetCount group) m_colors in
          assign_colors colors 0 (JSON.Group.m_datasets group) m_colors
      | None => Some m_colors
      end
    else Some m_colors in
  match result with
  | Some m_colors =>
      Some (mkState (m_index w) (m_minX w) (m_maxX w) (m_minY w) (m_maxY w)
                    m_colors (m_data w)
                    (effects w ++ [Emit "themeChanged"]))
  | None => None
  end.

Definition QPointF_null : QPointF := (qreal_of_int 0, qreal_of_int 0).

(** [QVector::resize] with an [int] argument: a negative size, or one
    that does not fit an [int], has no result. *)
Definition resize_int {A} (d : A) (size : Z) (l : list A) : option (list A) :=
  if (size <? 0)%Z || (INT_MAX <? size)%Z then None
  else Some (resize d (Z.to_nat size) l).

(** One round of the loop of [updateRange]: append an empty curve and
    resize it to [points() + 1]. *)
Definition append_curve (dash : Dashboard)
  (m_data : option (list (list QPointF))) (_ : nat)
  : option (list (list QPointF)) :=
  match m_data with
  | Some m_data =>
      match resize_int QPointF_null (points dash + 1) [] with
      | Some curve => Some (m_data ++ [curve])
      | None => None
      end
  | None => None
  end.

Definition updateRange (dash : Dashboard) (w : State) : option State :=
  if (m_index w <? 0)%Z || (multiPlotCount dash <=? m_index w)%Z then Some w
  else
    match multiplots dash !! Z.to_nat (m_index w) with
    | Some group =>
        match foldl (append_curve dash) (Some [])
                    (seq 0 (JSON.Group.datasetCount group)) with
        | Some m_data =>
            Some (mkState (m_index w) (qreal_of_int 0)
                          (qreal_of_int (points dash))
                          (m_minY w) (m_maxY w) (m_colors w) m_data
                          (effects w ++ [Emit "rangeChanged"]))
        | None => None
        end
    | None => Some w
    end.

(** The points [updateData] makes of one curve's values. *)
Definition points_of (values : list qreal) : list QPointF :=
  imap (fun j v => (qreal_of_int (Z.of_nat j), v)) values.

(** The inner loop of [updateData]: [m_data[i][j] = QPointF(j, values[j])]
    for every [j], on a curve already resized to the number of values. *)
Fixpoint write_points (j : nat) (values : list qreal) (curve : list QPointF)
  : list QPointF :=
  match values with
  | [] => curve
  | v :: rest =>
      write_points (S j) rest
                   (<[j := (qreal_of_int (Z.of_nat j), v)]> curve)
  end.

(** The outer loop of [updateData], from curve [i] on. Indexing [m_data]
    past its end has no result. *)
Fixpoint write_curves (i : nat) (curves : list (list qreal))
  (m_data : list (list QPointF)) : option (list (list QPointF)) :=
  match curves with
  | [] => Some m_data
  | values :: rest =>
      match m_data !! i with
      | None => None
      | Some curve =>
          let curve :=
            if decide (length curve <> length values)
            then resize QPointF_null (length values) curve
            else curve in
          write_curves (S i) rest (<[i := write_points 0 values curve]> m_data)
      end
  end.

Definition updateData (dash : Dashboard) (w : State) : option State :=
  let plotData := multiplotValues dash in
  if (0 <=? m_index w)%Z && (m_index w <? Z.of_nat (length plotData))%Z then
    match plotData !! Z.to_nat (m_index w) with
    | Some curves =>
        match write_curves 0 curves (m_data w) with
        | Some m_data =>
            Some (mkState (m_index w) (m_minX w) (m_maxX w) (m_minY w)
                          (m_maxY w) (m_colors w) m_data (effects w))
        | None => None
        end
    | None => Some w
    end
  else Some w.

End WithDashboard.
End MultiPlot.
End Widgets.

(** ** Scenarios

    Concrete inputs for the definitions above. *)

Module Scenario.
Import Qt Plugins.Server.

(** A run: enable, a request for socket 4 arrives and is accepted, then a
    request for socket 5 arrives and is accepted. *)
Definition sample_run : @Plugins.Server.State Sample.Frame :=
  let step := Plugins.Server.handle Sample.Frame_serialize Sample.toJson
                Sample.toBase64 in
  step EvAcceptConnection
    (step (EvIncoming 5%nat (Sample.socket true))
       (step EvAcceptConnection
          (step (EvIncoming 4%nat (Sample.socket true))
             (step (EvSetEnabled true) (Server true EmptyString))))).

(** A serialiser for the sample datasets. *)
Definition Dataset_serialize (d : Sample.Dataset) : QJsonObject :=
  [("title", JString (Sample.d_title d)); ("index", JNumber (Sample.d_index d))].

Definition group_gps : @JSON.Group.Group Sample.Dataset :=
  JSON.Group.mkGroup 2 " GPS  position " "map"
    [Sample.mkDataset 2 0 "Latitude"; Sample.mkDataset 2 1 "Longitude"].

(** A multiplot group whose datasets have [index()] 1, 3 and 5, a palette
    of two colours, and a dashboard with three points per curve. Plot
    numbers are integers here. *)
Definition group_plot : @JSON.Group.Group Sample.Dataset :=
  JSON.Group.mkGroup 0 "Plot" "multiplot"
    [Sample.mkDataset 0 1 "A"; Sample.mkDataset 0 3 "B";
     Sample.mkDataset 0 5 "C"].

Definition palette : QJsonArray := [JString "#f00"; JString "#0f0"].

Definition dashboard : @Widgets.MultiPlot.Dashboard Sample.Dataset Z :=
  Widgets.MultiPlot.mkDashboard [group_plot] 3%Z
    [[[10; 20]; [30; 40; 50]]]%Z.

Definition widget : @Widgets.MultiPlot.State Z :=
  Widgets.MultiPlot.mkState 0%Z 0%Z 0%Z 0%Z 0%Z [] [] [].

Definition widget_ranged : @Widgets.MultiPlot.State Z :=
  default widget (Widgets.MultiPlot.updateRange (fun z => z) dashboard widget).

(** The same dashboard with a point count below -1. *)
Definition dashboard_negative : @Widgets.MultiPlot.Dashboard Sample.Dataset Z :=
  Widgets.MultiPlot.mkDashboard [group_plot] (-2)%Z [].

End Scenario.

(** * Properties *)

(** ** Plugins::Server *)

Module ServerFacts.
Import Qt Plugins.Server.

(** *** The removal loop *)

Lemma elem_of_delete_at {A} (l : list A) (i : nat) (y x : A) :
  l !! i = Some y -> x <> y -> x ∈ delete i l <-> x ∈ l.
Proof.
  intros Hi Hne. rewrite delete_take_drop.
  rewrite <- (take_drop_middle l i y Hi) at 3.
  rewrite !elem_of_app, elem_of_cons. intuition congruence.
Qed.

Lemma removeConnection_loop_absent socket i l :
  socket ∉ l -> removeConnection_loop socket i l = l.
Proof.
  funelim (removeConnection_loop socket i l); intros Hnot; try reflexivity.
  - exfalso. apply Hnot. eapply list_elem_of_lookup_2; eassumption.
  - match goal with IH : _ -> removeConnection_loop _ _ _ = _ |- _ =>
      apply IH; assumption end.
Qed.

(** The loop removes nothing but occurrences of [socket]. *)
Lemma removeConnection_loop_others socket i l x :
  x <> socket -> x ∈ removeConnection_loop socket i l <-> x ∈ l.
Proof.
  funelim (removeConnection_loop socket i l); intros Hne; try reflexivity.
  - match goal with IH : forall y, _ -> _ <-> _ |- _ =>
      rewrite IH by assumption end.
    eapply elem_of_delete_at; eassumption.
  - match goal with IH : forall y, _ -> _ <-> _ |- _ =>
      apply IH; assumption end.
Qed.

Lemma removeConnection_loop_removes socket i l :
  NoDup l -> socket ∉ take i l -> socket ∉ removeConnection_loop socket i l.
Proof.
  funelim (removeConnection_loop socket i l); intros Hnd Htake.
  - rewrite take_ge in Htake by lia. exact Htake.
  - assert (Hgone : socket ∉ delete i l).
    { rewrite delete_take_drop.
      rewrite <- (take_drop_middle l i socket) in Hnd by assumption.
      apply NoDup_app in Hnd as (_ & _ & Hnd).
      apply NoDup_cons in Hnd as [Hdrop _].
      rewrite elem_of_app. intros [Hin | Hin]; [exact (Htake Hin) | exact (Hdrop Hin)]. }
    rewrite removeConnection_loop_absent; assumption.
  - match goal with IH : _ -> _ -> _ ∉ _ |- _ => apply IH; [assumption |] end.
    destruct (l !! i) as [y|] eqn:Hy.
    + rewrite (take_S_r l i y Hy), elem_of_app, list_elem_of_singleton.
      intros [Hin | ->]; [exact (Htake Hin) | congruence].
    + apply lookup_ge_None in Hy. lia.
Qed.

(** With the same socket twice at the head of the list the scan, resuming
    at index 1, leaves the second occurrence in place. *)
Example removeConnection_loop_twice :
  removeConnection_loop 5 0 [5; 5; 7]%nat = [5; 7]%nat.
Proof. reflexivity. Qed.

Section WithFrame.
Context {Frame : Type}.
Context (Frame_serialize : Frame -> QJsonObject).
Context (toJson : QJsonObject -> QByteArray).
Context (toBase64 : QByteArray -> QByteArray).

Local Abbreviation State := (@Plugins.Server.State Frame).
Local Abbreviation sendProcessedData := (sendProcessedData Frame_serialize toJson).
Local Abbreviation sendRawData := (sendRawData toJson toBase64).
Local Abbreviation handle := (handle Frame_serialize toJson toBase64).
Local Abbreviation reachable := (reachable Frame_serialize toJson toBase64).

(** *** What the senders and the abort loop leave alone *)

Lemma send_to_frame json (s : State) socket :
  m_enabled (send_to json s socket) = m_enabled s /\
  m_sockets (send_to json s socket) = m_sockets s /\
  m_frames (send_to json s socket) = m_frames s.
Proof.
  unfold send_to. destruct (decide (socket = nullptr)); [done |].
  destruct (heap s !! socket) as [k|]; [| done].
  destruct (isWritable k); done.
Qed.

Lemma foldl_send_to_frame json l (s : State) :
  m_enabled (foldl (send_to json) s l) = m_enabled s /\
  m_sockets (foldl (send_to json) s l) = m_sockets s /\
  m_frames (foldl (send_to json) s l) = m_frames s.
Proof.
  revert s. induction l as [| p l IH]; intros s; simpl; [done |].
  destruct (IH (send_to json s p)) as (-> & -> & ->).
  apply send_to_frame.
Qed.

Lemma broadcast_frame json (s : State) :
  m_enabled (broadcast json s) = m_enabled s /\
  m_sockets (broadcast json s) = m_sockets s /\
  m_frames (broadcast json s) = m_frames s.
Proof. apply foldl_send_to_frame. Qed.

Lemma abort_step_frame (s : State) socket :
  m_enabled (abort_step s socket) = m_enabled s /\
  m_frames (abort_step s socket) = m_frames s /\
  pending (abort_step s socket) = pending s /\
  io_written (abort_step s socket) = io_written s /\
  effects (abort_step s socket) = effects s.
Proof.
  unfold abort_step, abort, removeConnection.
  repeat (case_decide || case_match); done.
Qed.

Lemma setEnabled_loop_frame i (s : State) :
  m_enabled (setEnabled_loop i s) = m_enabled s /\
  m_frames (setEnabled_loop i s) = m_frames s /\
  pending (setEnabled_loop i s) = pending s /\
  io_written (setEnabled_loop i s) = io_written s /\
  effects (setEnabled_loop i s) = effects s.
Proof.
  funelim (setEnabled_loop i s); [| done].
  match goal with
  | IH : _ /\ _ |- _ => destruct IH as (-> & -> & -> & -> & ->)
  end.
  apply abort_step_frame.
Qed.

(** *** The 1 Hz flush *)

(** C1, as the code has it: in an Enabled state with at least one connection
    in the active set, one call of [sendProcessedData] leaves [m_frames]
    empty, whatever the sockets are and whether or not any is writable; with
    no connection in the set the call returns before the clear and
    [m_frames] is what it was. *)
Theorem sendProcessedData_clears_when_connected (s : State) :
  enabled s = true ->
  (m_sockets s <> [] -> m_frames (sendProcessedData s) = []) /\
  (m_sockets s = [] -> m_frames (sendProcessedData s) = m_frames s).
Proof.
  intros He. unfold Plugins.Server.sendProcessedData. rewrite He. simpl.
  split.
  - intros Hs. destruct (m_frames s) as [| f fs] eqn:Hf; [done |].
    destruct (m_sockets s) as [| p ps] eqn:Hp; [done |]. reflexivity.
  - intros ->. simpl. by destruct (m_frames s) eqn:Hf.
Qed.

(** *** Disconnect and socket error *)

(** [removeConnection] takes the sender out of the set, when the set lists
    no socket twice, keeps every other member, and touches no other
    socket. *)
Lemma removeConnection_removes (s : State) c :
  c <> nullptr -> NoDup (m_sockets s) ->
  (c ∉ m_sockets (removeConnection c s)) /\
  (forall x, x <> c ->
     (x ∈ m_sockets (removeConnection c s) <-> x ∈ m_sockets s)) /\
  (forall x, x <> c -> heap (removeConnection c s) !! x = heap s !! x).
Proof.
  intros Hc Hnd. unfold removeConnection.
  destruct (decide (c = nullptr)); [done |]. simpl.
  split; [| split].
  - apply removeConnection_loop_removes; [done |]. rewrite take_0. apply not_elem_of_nil.
  - intros x Hx. by apply removeConnection_loop_others.
  - intros x Hx. by rewrite lookup_alter_ne.
Qed.

(** [onErrorOccurred] changes nothing but the debug output. *)
Lemma onErrorOccurred_frame (s : State) c socketError errorString :
  m_enabled (onErrorOccurred c socketError errorString s) = m_enabled s /\
  m_sockets (onErrorOccurred c socketError errorString s) = m_sockets s /\
  m_frames (onErrorOccurred c socketError errorString s) = m_frames s /\
  heap (onErrorOccurred c socketError errorString s) = heap s.
Proof. unfold onErrorOccurred. by destruct (decide (c = nullptr)). Qed.

(** *** Enabling and disabling *)

(** [setEnabled] always empties the frame list and sets the flag;
    [setEnabled(false)] also empties the connection set. *)
Lemma setEnabled_frame (b : bool) (s : State) :
  m_frames (setEnabled b s) = [] /\
  enabled (setEnabled b s) = b /\
  m_sockets (setEnabled false s) = [].
Proof.
  destruct b; repeat split; try reflexivity.
  unfold setEnabled, enabled. simpl.
  by destruct (setEnabled_loop_frame 0
                 (effect (Emit "enabledChanged") (with_enabled false s)))
    as (-> & _).
Qed.

(** C10: every call of [setEnabled] leaves [m_frames] empty, whatever the
    argument; [setEnabled(true)] leaves the connection set as it was and
    [setEnabled(false)] empties it. *)
Theorem setEnabled_clears_frames (b : bool) (s : State) :
  m_frames (setEnabled b s) = [] /\
  m_sockets (setEnabled true s) = m_sockets s /\
  m_sockets (setEnabled false s) = [].
Proof.
  destruct (setEnabled_frame b s) as (Hf & _ & Hs).
  split; [exact Hf |]. split; [reflexivity | exact Hs].
Qed.

Lemma acceptConnection_disabled (s : State) :
  enabled s = false ->
  m_sockets (acceptConnection s) = m_sockets s /\
  m_frames (acceptConnection s) = m_frames s /\
  enabled (acceptConnection s) = false /\
  forall p r, pending s = p :: r -> p <> nullptr ->
    is_Some (heap s !! p) ->
    pending (acceptConnection s) = r /\
    exists k, heap (acceptConnection s) !! p = Some k /\
              sock_state k = Closed /\ sock_deleteLater k = true.
Proof.
  intros He. unfold acceptConnection, nextPendingConnection, enabled in *.
  destruct (pending s) as [| q r] eqn:Hq; simpl.
  - rewrite He. simpl. rewrite He. split; [done |]. split; [done |].
    split; [done |]. intros p r' Hp. discriminate.
  - rewrite He, andb_false_r. simpl.
    destruct (decide (q = nullptr)) as [-> | Hne]; simpl.
    + rewrite He. split; [done |]. split; [done |]. split; [done |].
      intros p r' [= <- <-] Hp. done.
    + split; [done |]. split; [done |]. split; [done |].
      intros p r' [= <- <-] _ [k Hk]. split; [done |].
      exists (deleteLater (close k)). rewrite !lookup_alter_eq, Hk. done.
Qed.

Lemma acceptConnection_enabled (s : State) :
  m_enabled (acceptConnection s) = m_enabled s.
Proof.
  unfold acceptConnection, nextPendingConnection, enabled.
  destruct (pending s) as [| q r]; simpl;
    destruct (m_enabled s) eqn:He; simpl; rewrite ?He; simpl; try done.
  - destruct (bool_decide (q = nullptr)); simpl; by rewrite He.
  - rewrite andb_false_r. simpl. destruct (decide (q = nullptr)); simpl; by rewrite ?He.
Qed.

Lemma registerFrame_disabled (f : Frame) (s : State) :
  m_enabled (registerFrame f s) = m_enabled s /\
  (m_enabled s = false -> registerFrame f s = s).
Proof. unfold registerFrame, enabled. by destruct (m_enabled s) eqn:He. Qed.

Lemma sendProcessedData_frame (s : State) :
  m_enabled (sendProcessedData s) = m_enabled s /\
  m_sockets (sendProcessedData s) = m_sockets s /\
  (m_enabled s = false -> sendProcessedData s = s).
Proof.
  unfold Plugins.Server.sendProcessedData, enabled.
  destruct (m_enabled s) eqn:He; simpl; [| done].
  destruct (length (m_frames s) <=? 0)%nat; [done |].
  destruct (length (m_sockets s) <? 1)%nat; [done |]. simpl.
  destruct (0 <? _)%nat; simpl; [| done].
  match goal with |- context [broadcast ?j s] =>
    destruct (broadcast_frame j s) as (-> & -> & _) end.
  done.
Qed.

Lemma sendRawData_frame (d : QByteArray) (s : State) :
  m_enabled (sendRawData d s) = m_enabled s /\
  m_sockets (sendRawData d s) = m_sockets s /\
  m_frames (sendRawData d s) = m_frames s.
Proof.
  unfold Plugins.Server.sendRawData, enabled.
  destruct (m_enabled s) eqn:He; simpl; [| done].
  destruct (length (m_sockets s) <? 1)%nat; [done |].
  match goal with |- context [broadcast ?j s] =>
    destruct (broadcast_frame j s) as (-> & -> & ->) end.
  done.
Qed.

Lemma removeConnection_frame c (s : State) :
  m_enabled (removeConnection c s) = m_enabled s /\
  m_frames (removeConnection c s) = m_frames s /\
  (m_sockets s = [] -> m_sockets (removeConnection c s) = []).
Proof.
  unfold removeConnection. destruct (decide (c = nullptr)); [done |]. simpl.
  repeat split. intros ->.
  apply removeConnection_loop_absent, not_elem_of_nil.
Qed.

Lemma onDataReceived_frame c (s : State) :
  m_enabled (onDataReceived c s) = m_enabled s /\
  m_sockets (onDataReceived c s) = m_sockets s /\
  m_frames (onDataReceived c s) = m_frames s.
Proof.
  unfold onDataReceived, enabled.
  destruct (m_enabled s) eqn:He; simpl; [| done].
  destruct (bool_decide (c = nullptr)); simpl; [done |].
  destruct (heap s !! c); simpl; done.
Qed.

Lemma handle_preserves_disabled_idle e (s : State) :
  disabled_idle s -> disabled_idle (handle e s).
Proof.
  unfold disabled_idle, enabled. intros Hinv.
  destruct e as [p k | b | | f | | d | p | p | p er m];
    cbn [Plugins.Server.handle].
  - exact Hinv.
  - destruct (setEnabled_frame b s) as (Hf & He & Hs).
    unfold enabled in He. rewrite He. intros ->. done.
  - rewrite acceptConnection_enabled. intros He.
    destruct (acceptConnection_disabled s He) as (-> & -> & _). auto.
  - destruct (registerFrame_disabled f s) as [-> Hid].
    intros He. rewrite (Hid He). auto.
  - destruct (sendProcessedData_frame s) as (-> & _ & Hid).
    intros He. rewrite (Hid He). auto.
  - destruct (sendRawData_frame d s) as (-> & -> & ->). exact Hinv.
  - destruct (removeConnection_frame p s) as (-> & -> & Hs).
    intros He. destruct (Hinv He) as [Ha Hb]. auto.
  - destruct (onDataReceived_frame p s) as (-> & -> & ->). exact Hinv.
  - destruct (onErrorOccurred_frame s p er m) as (-> & -> & -> & _).
    exact Hinv.
Qed.

(** X21: the constructor gives a Disabled state with no connection and no
    queued frame; every event handler keeps "Disabled implies both empty",
    so it holds in every reachable state; [setEnabled(false)] empties both;
    and [acceptConnection] in a Disabled state closes the pending socket,
    schedules it for deletion and leaves the connection set as it was. *)
Theorem disabled_idle_invariant :
  (forall ok err,
     enabled (Server ok err : State) = false /\
     m_sockets (Server ok err : State) = [] /\
     m_frames (Server ok err : State) = []) /\
  (forall e (s : State), disabled_idle s -> disabled_idle (handle e s)) /\
  (forall s : State, reachable s ->
     enabled s = false -> m_sockets s = [] /\ m_frames s = []) /\
  (forall s : State,
     enabled (setEnabled false s) = false /\
     m_sockets (setEnabled false s) = [] /\
     m_frames (setEnabled false s) = []) /\
  (forall (s : State) p r,
     enabled s = false -> pending s = p :: r -> p <> nullptr ->
     is_Some (heap s !! p) ->
     m_sockets (acceptConnection s) = m_sockets s /\
     (disabled_idle s -> p ∉ m_sockets (acceptConnection s)) /\
     torn_down (acceptConnection s) p).
Proof.
  split; [| split; [| split; [| split]]].
  - intros [] err; done.
  - apply handle_preserves_disabled_idle.
  - intros s Hr. induction Hr as [ok err | e s Hr IH].
    + by destruct ok.
    + by apply handle_preserves_disabled_idle.
  - intros s.
    destruct (setEnabled_frame false s) as (Hf & He & Hs). done.
  - intros s p r He Hp Hn Hs.
    destruct (acceptConnection_disabled s He) as (Hsock & _ & _ & Hcl).
    destruct (Hcl p r Hp Hn Hs) as (_ & Htd).
    split; [done |]. split; [| exact Htd].
    intros Hinv. rewrite Hsock. destruct (Hinv He) as [-> _].
    apply not_elem_of_nil.
Qed.

End WithFrame.

(** *** The server on concrete states *)

(** C1 fails as stated: Enabled, one frame queued, nobody connected. The
    flush returns at the socket-count test and the frame is still queued. *)
Lemma sendProcessedData_alone_keeps_frames :
  enabled Sample.server_alone = true /\
  m_sockets Sample.server_alone = [] /\
  m_frames (sendProcessedData Sample.Frame_serialize Sample.toJson
              Sample.server_alone) = [7%Z] /\
  m_frames (sendProcessedData Sample.Frame_serialize Sample.toJson
              Sample.server_alone) <> [].
Proof. repeat split; try reflexivity. discriminate. Qed.

Lemma sendProcessedData_clears_when_connected_witness :
  enabled Sample.server_two_clients = true /\
  m_sockets Sample.server_two_clients <> [] /\
  m_frames (sendProcessedData Sample.Frame_serialize Sample.toJson
              Sample.server_two_clients) = [].
Proof.
  split; [reflexivity |]. split; [discriminate |].
  apply (sendProcessedData_clears_when_connected
           Sample.Frame_serialize Sample.toJson Sample.server_two_clients);
    [reflexivity | discriminate].
Defined.

(** The flush writes to the writable client only, and clears the queue. *)
Example sendProcessedData_two_clients :
  let s := sendProcessedData Sample.Frame_serialize Sample.toJson
             Sample.server_two_clients in
  (sock_outbox <$> heap s !! 1%nat) =
    Some [Sample.toJson
            [("frames", JArray [JObject [("data", JObject [("id", JNumber 7)])]])]
          +:+ newline] /\
  (sock_outbox <$> heap s !! 2%nat) = Some [] /\
  m_frames s = [].
Proof. vm_compute. repeat split. Qed.

(** C2 at a concrete state: two clients connected, a socket error is
    signalled for client 1. The handler prints the error string and
    returns; client 1 is still in the set and its socket is untouched. *)
Theorem onErrorOccurred_keeps_connection :
  let s := Sample.server_two_clients in
  let s' := onErrorOccurred 1%nat "RemoteHostClosedError"
              "The remote host closed the connection" s in
  1%nat ∈ m_sockets s /\
  m_sockets s' = [1; 2]%nat /\
  1%nat ∈ m_sockets s' /\
  heap s' = heap s /\
  effects s' = [Debug "The remote host closed the connection"].
Proof.
  simpl. split; [apply elem_of_cons; by left |].
  split; [reflexivity |]. split; [apply elem_of_cons; by left |].
  split; reflexivity.
Qed.

(** The disconnect handler on the same state does remove client 1. *)
Example removeConnection_two_clients :
  m_sockets (removeConnection 1%nat Sample.server_two_clients) = [2%nat].
Proof. reflexivity. Qed.

Lemma disabled_idle_invariant_witness :
  let step := handle Sample.Frame_serialize Sample.toJson Sample.toBase64 in
  let s : @State Sample.Frame :=
    step (EvSetEnabled false)
      (step (EvRegisterFrame 7%Z)
         (step EvAcceptConnection
            (step (EvIncoming 4%nat (Sample.socket true))
               (step (EvSetEnabled true) (Server true EmptyString))))) in
  reachable Sample.Frame_serialize Sample.toJson Sample.toBase64 s /\
  enabled s = false /\ m_sockets s = [] /\ m_frames s = [].
Proof.
  destruct (disabled_idle_invariant Sample.Frame_serialize Sample.toJson
              Sample.toBase64) as (_ & _ & Hreach & _).
  split; [repeat constructor |]. split; [reflexivity |].
  apply Hreach; [repeat constructor | reflexivity].
Defined.

(** C9 at a concrete state: Enabled, clients 1 and 2 connected, one frame
    queued, then [setEnabled(false)]. Aborting client 1 runs
    [removeConnection], which takes it out of the list the loop is walking;
    the loop index then is past the end and client 2 is never reached. The
    set and the queue end empty, client 1 is closed and scheduled for
    deletion, and client 2 is still connected and not scheduled for
    deletion. *)
Theorem setEnabled_false_skips_connection :
  let s := setEnabled false Sample.server_two_clients in
  enabled s = false /\ m_sockets s = [] /\ m_frames s = [] /\
  heap s !! 1%nat = Some (mkSocket Closed false EmptyString [] true) /\
  heap s !! 2%nat = Some (mkSocket Connected false EmptyString [] false).
Proof. vm_compute. repeat split. Qed.

(** A connection request that arrives while Disabled: the socket is closed
    and scheduled for deletion, and the set stays empty. *)
Example acceptConnection_disabled_request :
  let s := acceptConnection Sample.server_disabled_request in
  m_sockets s = [] /\ pending s = [] /\
  heap s !! 3%nat = Some (mkSocket Closed false EmptyString [] true).
Proof. vm_compute. repeat split. Qed.

End ServerFacts.

(** ** JSON::FrameParser *)

Module FrameParserFacts.
Import Qt JSON.FrameParser.

Section WithEngine.
Context `{QJSEngine}.

(** [loadScript] by cases on the three tests, in the order the code makes
    them. *)
Lemma loadScript_cases script s :
  let e1 := fst (evaluate (installExtensions (m_engine s)) script) in
  let e2 := fst (call e1 (load_fun script s) smoke_args) in
  let cs := calls s ++ [(load_fun script s, smoke_args)] in
  loadScript script s =
    if no_entry_point script s then
      (false, mkState e1 (m_parseFunction s)
                      (effects s ++ [missing_entry_point]) (calls s))
    else if negb (QStringList_isEmpty (load_errors script s)) then
      (false, mkState e2 (m_parseFunction s)
                      (effects s ++ [syntax_error (first (load_errors script s))])
                      cs)
    else if isError (load_ret script s) then
      (false, mkState e2 (m_parseFunction s)
                      (effects s ++
                       [MessageBox "Frame parser error detected!"
                                   (errorStr (errorType (load_ret script s)))])
                      cs)
    else (true, mkState e2 (load_fun script s) (effects s) cs).
Proof.
  unfold loadScript, no_entry_point, load_ret, load_errors,
    do_call, smoke_args. unfold load_fun. simpl.
  destruct (evaluate (installExtensions (m_engine s)) script) as [e errors].
  simpl.
  destruct (isNull (globalProperty e "parse")
            || negb (isCallable (globalProperty e "parse"))); [reflexivity |].
  destruct (call e (globalProperty e "parse") _) as [e' ret]. simpl.
  destruct (QStringList_isEmpty errors); simpl; [| reflexivity].
  destruct (isError ret); reflexivity.
Qed.

Lemma errors_nonempty (l : QStringList) :
  l <> [] <-> QStringList_isEmpty l = false.
Proof. destruct l; simpl; split; congruence. Qed.

Lemma parse_callee_is_parseFunction frame separator s :
  parse_callee frame separator s = Some (m_parseFunction s).
Proof.
  unfold parse_callee, parse, do_call.
  destruct (call (m_engine s) (m_parseFunction s) _) as [e ret]. simpl.
  by rewrite last_snoc.
Qed.

(** A load succeeds exactly when all three tests pass, and then the function
    found in the global object becomes the active one. *)
Lemma loadScript_success script s :
  fst (loadScript script s) = true <->
  no_entry_point script s = false /\ load_errors script s = [] /\
  isError (load_ret script s) = false.
Proof.
  rewrite loadScript_cases. simpl.
  destruct (no_entry_point script s); simpl; [intuition congruence |].
  destruct (load_errors script s); simpl; [| intuition congruence].
  destruct (isError (load_ret script s)); simpl; intuition congruence.
Qed.

Lemma loadScript_success_installs script s :
  fst (loadScript script s) = true ->
  m_parseFunction (snd (loadScript script s)) = load_fun script s.
Proof.
  rewrite loadScript_cases. simpl.
  destruct (no_entry_point script s); simpl; [congruence |].
  destruct (QStringList_isEmpty (load_errors script s)); simpl; [| congruence].
  destruct (isError (load_ret script s)); simpl; congruence.
Qed.

(** C3: when the evaluation collected errors, or the global object has no
    callable [parse], or the smoke invocation returned an error,
    [loadScript] returns false, [m_parseFunction] is what it was before the
    call, and that is the function a later [parse] calls. *)
Theorem loadScript_failure_keeps_parseFunction script s :
  load_errors script s <> [] \/
  isNull (load_fun script s) || negb (isCallable (load_fun script s)) = true \/
  isError (load_ret script s) = true ->
  fst (loadScript script s) = false /\
  m_parseFunction (snd (loadScript script s)) = m_parseFunction s /\
  forall frame separator,
    parse_callee frame separator (snd (loadScript script s))
    = Some (m_parseFunction s).
Proof.
  intros Hfail.
  assert (Hres : fst (loadScript script s) = false /\
                 m_parseFunction (snd (loadScript script s))
                 = m_parseFunction s).
  { rewrite loadScript_cases. simpl.
    fold (no_entry_point script s) in Hfail.
    destruct (no_entry_point script s); simpl; [done |].
    destruct (load_errors script s) as [| x l]; simpl; [| done].
    destruct (isError (load_ret script s)); simpl; [done |].
    destruct Hfail as [? | [? | ?]]; done. }
  destruct Hres as [Hf Hp]. split; [exact Hf |]. split; [exact Hp |].
  intros frame separator.
  by rewrite parse_callee_is_parseFunction, Hp.
Qed.

(** C4, as the code has it: a load whose script leaves a callable [parse] in
    the global object calls it exactly once, with the empty string and the
    literal separator [","]; a load that finds no callable [parse] makes no
    call at all. *)
Theorem loadScript_smoke_invocation script s :
  load_calls script s =
    if isNull (load_fun script s) || negb (isCallable (load_fun script s))
    then []
    else [(load_fun script s,
           [QJSValue_fromString EmptyString; QJSValue_fromString ","])].
Proof.
  unfold load_calls. rewrite loadScript_cases. simpl.
  fold (no_entry_point script s).
  destruct (no_entry_point script s); simpl.
  - by rewrite drop_all.
  - destruct (negb (QStringList_isEmpty (load_errors script s))); simpl;
      [by rewrite drop_app_length |].
    destruct (isError (load_ret script s)); simpl; by rewrite drop_app_length.
Qed.

(** C5: when the global object has no callable [parse] after the
    evaluation, [loadScript] returns false and the one thing it reports is
    the message that no parse() function has been declared. *)
Theorem loadScript_missing_entry_point script s :
  isNull (load_fun script s) || negb (isCallable (load_fun script s)) = true ->
  fst (loadScript script s) = false /\
  load_effects script s =
    [MessageBox "Frame parser error!"
                "No parse() function has been declared!"].
Proof.
  intros Hno. unfold load_effects. rewrite loadScript_cases. simpl.
  fold (no_entry_point script s) in Hno. rewrite Hno. simpl.
  by rewrite drop_app_length.
Qed.

(** C6, as the code has it: when the evaluation collected errors,
    [loadScript] returns false; what it reports is the syntax error with the
    first collected entry when the global object has a callable [parse],
    and the missing parse() message when it has none. *)
Theorem loadScript_evaluation_errors script s :
  load_errors script s <> [] ->
  fst (loadScript script s) = false /\
  load_effects script s =
    [if isNull (load_fun script s) || negb (isCallable (load_fun script s))
     then MessageBox "Frame parser error!"
                     "No parse() function has been declared!"
     else MessageBox "Frame parser syntax error!"
                     ("Error on line " +:+ first (load_errors script s)
                      +:+ ".")].
Proof.
  intros Herr. apply errors_nonempty in Herr.
  unfold load_effects. rewrite loadScript_cases. simpl.
  fold (no_entry_point script s).
  destruct (no_entry_point script s); simpl.
  - by rewrite drop_app_length.
  - rewrite Herr. simpl. by rewrite drop_app_length.
Qed.

End WithEngine.

(** *** The parser on the sample engine *)

Example loadScript_split_succeeds :
  fst (loadScript Sample.script_split Sample.parser0) = true /\
  m_parseFunction Sample.parser1 = Sample.VFunction Sample.BSplit /\
  fst (parse "a,b,c" "," Sample.parser1) = ["a"; "b"; "c"].
Proof. vm_compute. repeat split. Qed.

Lemma loadScript_failure_keeps_parseFunction_witness :
  (load_errors Sample.script_number Sample.parser1 <> [] \/
   isNull (load_fun Sample.script_number Sample.parser1)
   || negb (isCallable (load_fun Sample.script_number Sample.parser1)) = true \/
   isError (load_ret Sample.script_number Sample.parser1) = true) /\
  fst (loadScript Sample.script_number Sample.parser1) = false /\
  m_parseFunction (snd (loadScript Sample.script_number Sample.parser1))
  = Sample.VFunction Sample.BSplit.
Proof.
  assert (Hfail :
    load_errors Sample.script_number Sample.parser1 <> [] \/
    isNull (load_fun Sample.script_number Sample.parser1)
    || negb (isCallable (load_fun Sample.script_number Sample.parser1)) = true \/
    isError (load_ret Sample.script_number Sample.parser1) = true)
    by (right; left; reflexivity).
  split; [exact Hfail |].
  destruct (loadScript_failure_keeps_parseFunction
              Sample.script_number Sample.parser1 Hfail) as (Hf & Hp & _).
  split; [exact Hf |]. rewrite Hp. reflexivity.
Defined.

(** C4 fails as stated: with the separator configured as [";"], loading the
    splitting script calls [parse] with [","]; and loading a script that
    leaves no callable [parse] calls nothing. *)
Lemma loadScript_smoke_separator_is_comma :
  Sample.configured_separator = ";" /\
  load_calls Sample.script_split Sample.parser0
  = [(Sample.VFunction Sample.BSplit,
      [Sample.VString EmptyString; Sample.VString ","])] /\
  load_calls Sample.script_split Sample.parser0
  <> [(Sample.VFunction Sample.BSplit,
       [Sample.VString EmptyString;
        Sample.VString Sample.configured_separator])] /\
  load_calls Sample.script_number Sample.parser0 = [].
Proof. vm_compute. repeat split. discriminate. Qed.

Lemma loadScript_missing_entry_point_witness :
  isNull (load_fun Sample.script_number Sample.parser0)
  || negb (isCallable (load_fun Sample.script_number Sample.parser0)) = true /\
  fst (loadScript Sample.script_number Sample.parser0) = false /\
  load_effects Sample.script_number Sample.parser0 =
    [MessageBox "Frame parser error!"
                "No parse() function has been declared!"].
Proof.
  split; [reflexivity |].
  apply (loadScript_missing_entry_point Sample.script_number Sample.parser0).
  reflexivity.
Defined.

(** C6 fails as stated: on a fresh parser the script that does not compile
    collects an error, and what is reported is the missing parse() message,
    not a syntax error. *)
Lemma loadScript_broken_reports_missing_parse :
  load_errors Sample.script_broken Sample.parser0 = ["1"] /\
  fst (loadScript Sample.script_broken Sample.parser0) = false /\
  load_effects Sample.script_broken Sample.parser0 =
    [MessageBox "Frame parser error!"
                "No parse() function has been declared!"] /\
  load_effects Sample.script_broken Sample.parser0 <>
    [MessageBox "Frame parser syntax error!" "Error on line 1."].
Proof. vm_compute. repeat split. discriminate. Qed.

Lemma loadScript_evaluation_errors_witness :
  load_errors Sample.script_broken Sample.parser1 <> [] /\
  fst (loadScript Sample.script_broken Sample.parser1) = false /\
  load_effects Sample.script_broken Sample.parser1 =
    [MessageBox "Frame parser syntax error!" "Error on line 1."].
Proof.
  split; [discriminate |].
  apply (loadScript_evaluation_errors Sample.script_broken Sample.parser1).
  discriminate.
Defined.

End FrameParserFacts.

(** ** JSON::Group *)

Module GroupFacts.
Import Qt JSON.Group.

Lemma QJsonObject_value_absent (o : QJsonObject) key :
  QJsonObject_contains o key = false -> QJsonObject_value o key = JUndefined.
Proof.
  induction o as [| [k v] o IH]; simpl; [done |].
  destruct (String.eqb k key); [done | exact IH].
Qed.

(** Reading a string through [SAFE_READ] with the empty default is reading
    the member's value. *)
Lemma SAFE_READ_toString (o : QJsonObject) key :
  QVariant_toString (SAFE_READ o key (JString EmptyString))
  = QVariant_toString (QJsonObject_value o key).
Proof.
  unfold SAFE_READ. destruct (QJsonObject_contains o key) eqn:Hc; [done |].
  by rewrite QJsonObject_value_absent.
Qed.

Lemma toArray_nonempty v :
  toArray v <> [] <-> exists a, v = JArray a /\ a <> [].
Proof.
  split.
  - destruct v; simpl; try done. intros Ha. by eexists.
  - intros (a & -> & Ha). exact Ha.
Qed.

Lemma toObject_nonempty v :
  QJsonObject_isEmpty (toObject v) = false <->
  exists o, v = JObject o /\ o <> [].
Proof.
  split.
  - destruct v as [| | | | | | o]; simpl; try done.
    destruct o; [done |]. intros _. by eexists.
  - intros (o & -> & Ho). by destruct o.
Qed.

Lemma QString_isEmpty_false (t : QString) :
  QString_isEmpty t = false <-> t <> EmptyString.
Proof. destruct t; simpl; split; congruence. Qed.

Section WithDataset.
Context {Dataset : Type}.
Context (Dataset_new : Z -> Z -> Dataset).
Context (Dataset_read : Dataset -> QJsonObject -> bool * Dataset).

Local Abbreviation Group := (@JSON.Group.Group Dataset).
Local Abbreviation read := (read Dataset_new Dataset_read).
Local Abbreviation read_datasets := (read_datasets Dataset_new Dataset_read).

(** The loop ends with a non-empty list exactly when it started with one or
    some element from index [i] on is a non-empty object that
    [Dataset::read] accepts. *)
Lemma read_datasets_nonempty groupId i (array : QJsonArray) datasets :
  read_datasets groupId i array datasets <> [] <->
  datasets <> [] \/
  exists (j : nat) o,
    array !! j = Some (JObject o) /\ o <> [] /\
    fst (Dataset_read (Dataset_new groupId (i + Z.of_nat j)) o) = true.
Proof.
  revert i datasets. induction array as [| v rest IH]; intros i datasets.
  - simpl. split; [by left |]. intros [Hd | (j & o & Hj & _)]; [done |].
    by destruct j.
  - cbn [JSON.Group.read_datasets]. rewrite IH. clear IH. split.
    + intros [Hd | (j & o & Hj & Ho & Hacc)].
      * destruct (QJsonObject_isEmpty (toObject v)) eqn:He; simpl in Hd;
          [by left |].
        apply toObject_nonempty in He as (o & -> & Ho). simpl in Hd.
        destruct (Dataset_read (Dataset_new groupId i) o) as [ok d] eqn:Hr.
        destruct ok; [| by left].
        right. exists 0%nat, o. rewrite Z.add_0_r, Hr. done.
      * right. exists (S j), o. split; [done |]. split; [done |].
        by replace (i + Z.of_nat (S j))%Z with (i + 1 + Z.of_nat j)%Z by lia.
    + intros [Hd | (j & o & Hj & Ho & Hacc)].
      * left. destruct (negb (QJsonObject_isEmpty (toObject v))); [| done].
        destruct (Dataset_read _ _) as [[] d]; [| done].
        by destruct datasets.
      * destruct j as [| j]; simpl in Hj.
        -- injection Hj as ->. left. simpl.
           destruct o as [| m o]; [done |]. simpl.
           rewrite Z.add_0_r in Hacc.
           destruct (Dataset_read _ _) as [ok d]. simpl in Hacc. subst ok.
           by destruct datasets.
        -- right. exists j, o. split; [done |]. split; [done |].
           by replace (i + 1 + Z.of_nat j)%Z with (i + Z.of_nat (S j))%Z by lia.
Qed.

(** C7: [read] returns true exactly when the object is not empty, its
    "title" is a string whose simplified form is not empty, its "datasets"
    is a non-empty array, and some element of that array is a non-empty
    object that [Dataset::read] accepts. *)
Theorem read_true_iff (object : QJsonObject) (g : Group) :
  fst (read object g) = true <->
  object <> [] /\
  (exists t, QJsonObject_value object "title" = JString t /\
             simplified t <> EmptyString) /\
  exists a, QJsonObject_value object "datasets" = JArray a /\ a <> [] /\
    exists (j : nat) o,
      a !! j = Some (JObject o) /\ o <> [] /\
      fst (Dataset_read (Dataset_new (m_groupId g) (Z.of_nat j)) o) = true.
Proof.
  unfold JSON.Group.read. rewrite !SAFE_READ_toString.
  remember (simplified (QVariant_toString (QJsonObject_value object "title")))
    as title eqn:Etitle.
  remember (simplified (QVariant_toString (QJsonObject_value object "widget")))
    as widget eqn:Ewidget.
  remember (toArray (QJsonObject_value object "datasets")) as array eqn:Earray.
  assert (Htitle : (exists t, QJsonObject_value object "title" = JString t /\
                              simplified t <> EmptyString)
                   <-> title <> EmptyString).
  { subst title. split.
    - intros (t & -> & Ht). exact Ht.
    - destruct (QJsonObject_value object "title"); simpl; try done.
      intros Ht. by eexists. }
  assert (Harray : forall P : QJsonArray -> Prop,
             (exists a, QJsonObject_value object "datasets" = JArray a /\
                        a <> [] /\ P a)
             <-> array <> [] /\ P array).
  { intros P. subst array. split.
    - intros (a & -> & Ha & HP). done.
    - intros [Ha HP]. pose proof Ha as Ha'.
      apply toArray_nonempty in Ha' as (a & Hv & Hne).
      rewrite Hv in HP, Ha. exists a. done. }
  rewrite Htitle, Harray. clear Htitle Harray Etitle Ewidget Earray.
  destruct object as [| m object']; cbn [QJsonObject_isEmpty negb].
  { simpl. split; [done |]. by intros [? _]. }
  destruct title as [| c title]; cbn [QString_isEmpty negb andb].
  { simpl. split; [done |]. by intros (_ & ? & _). }
  destruct array as [| v rest]; cbn [QJsonArray_isEmpty negb andb].
  { simpl. split; [done |]. by intros (_ & _ & ? & _). }
  cbn [fst m_groupId m_datasets]. unfold datasetCount.
  cbn [m_groupId m_datasets]. rewrite Nat.ltb_lt.
  assert (Hlen : forall l : list Dataset, (0 < length l)%nat <-> l <> []).
  { intros [| x l]; simpl; split; (lia || done). }
  rewrite Hlen, (read_datasets_nonempty (m_groupId g) 0 (v :: rest) []).
  clear Hlen. split.
  - intros [Hd | Hex]; [done |]. done.
  - intros (_ & _ & _ & Hex). by right.
Qed.

(** C8, as the code has it: a rejection decided before the group is
    written to (empty object, empty simplified title, or empty "datasets"
    array) leaves the group as it was; a rejection decided after the loop
    (no dataset accepted) leaves the group with the object's simplified
    title and widget and with an empty dataset list. *)
Theorem read_rejected_group (object : QJsonObject) (g : Group) :
  fst (read object g) = false ->
  let title :=
    simplified (QVariant_toString (QJsonObject_value object "title")) in
  let widget :=
    simplified (QVariant_toString (QJsonObject_value object "widget")) in
  let array := toArray (QJsonObject_value object "datasets") in
  (object = [] \/ title = EmptyString \/ array = [] ->
   snd (read object g) = g) /\
  (object <> [] -> title <> EmptyString -> array <> [] ->
   snd (read object g) = mkGroup (m_groupId g) title widget []).
Proof.
  intros Hrej title widget array. revert Hrej.
  unfold JSON.Group.read. rewrite !SAFE_READ_toString.
  fold title. fold widget. fold array.
  clearbody title widget array.
  destruct object as [| m object']; cbn [QJsonObject_isEmpty negb].
  { simpl. intros _. split; [done |]. by intros ?. }
  destruct title as [| c title]; cbn [QString_isEmpty negb andb].
  { simpl. intros _. split; [done |]. by intros _ ?. }
  destruct array as [| v rest]; cbn [QJsonArray_isEmpty negb andb].
  { simpl. intros _. split; [done |]. by intros _ _ ?. }
  cbn [fst snd m_groupId m_datasets m_title m_widget]. unfold datasetCount.
  cbn [m_groupId m_datasets]. rewrite Nat.ltb_ge. intros Hlen.
  split.
  - intros [? | [? | ?]]; done.
  - intros _ _ _.
    destruct (read_datasets (m_groupId g) 0 (v :: rest) []) as [| x l];
      [reflexivity | simpl in Hlen; lia].
Qed.

End WithDataset.

(** *** Reading into the sample group *)

Example read_one_dataset :
  read Sample.Dataset_new Sample.Dataset_read
       Sample.object_one_dataset Sample.group_old
  = (true, mkGroup 1 "New title" "gps" [Sample.mkDataset 1 1 "Altitude"]).
Proof. reflexivity. Qed.

(** C8 fails as stated: the object has a title and a "datasets" array whose
    only element is [null]. [read] returns false, and the group has lost its
    title, its widget and its dataset. *)
Lemma read_rejected_overwrites_group :
  read Sample.Dataset_new Sample.Dataset_read
       Sample.object_null_dataset Sample.group_old
  = (false, mkGroup 1 "New title" EmptyString []) /\
  snd (read Sample.Dataset_new Sample.Dataset_read
            Sample.object_null_dataset Sample.group_old)
  <> Sample.group_old.
Proof. split; [reflexivity | discriminate]. Qed.

Lemma read_rejected_group_witness :
  fst (read Sample.Dataset_new Sample.Dataset_read [] Sample.group_old)
  = false /\
  snd (read Sample.Dataset_new Sample.Dataset_read [] Sample.group_old)
  = Sample.group_old.
Proof.
  split; [reflexivity |].
  apply (read_rejected_group Sample.Dataset_new Sample.Dataset_read
           [] Sample.group_old); [reflexivity | by left].
Defined.

Lemma read_true_iff_witness :
  fst (read Sample.Dataset_new Sample.Dataset_read
            Sample.object_one_dataset Sample.group_old) = true.
Proof.
  apply (read_true_iff Sample.Dataset_new Sample.Dataset_read
           Sample.object_one_dataset Sample.group_old).
  split; [discriminate |]. split.
  - eexists. split; [reflexivity | discriminate].
  - eexists. split; [reflexivity |]. split; [discriminate |].
    exists 1%nat. eexists. split; [reflexivity |].
    split; [discriminate | reflexivity].
Defined.

End GroupFacts.

(** ** Plugins::Server: deliveries and runs *)

Module ServerRunsFacts.
Import Qt Plugins.Server ServerRuns.

(** *** The removal loop on a list without repetition *)

Lemma filter_absent (c : QTcpSocketPtr) (l : list QTcpSocketPtr) :
  c ∉ l -> filter (fun x => x <> c) l = l.
Proof.
  induction l as [| x l IH]; intros Hc; [done |].
  apply not_elem_of_cons in Hc as [Hx Hl].
  rewrite filter_cons_True by congruence. by rewrite IH.
Qed.

Lemma removeConnection_loop_filter socket i l :
  NoDup l -> socket ∉ take i l ->
  removeConnection_loop socket i l = filter (fun x => x <> socket) l.
Proof.
  funelim (removeConnection_loop socket i l); intros Hnd Htake.
  - rewrite take_ge in Htake by lia. by rewrite filter_absent.
  - rewrite <- (take_drop_middle l i socket) in Hnd by assumption.
    apply NoDup_app in Hnd as (_ & _ & Hnd).
    apply NoDup_cons in Hnd as [Hdrop _].
    assert (Hgone : socket ∉ delete i l).
    { rewrite delete_take_drop, elem_of_app. tauto. }
    rewrite ServerFacts.removeConnection_loop_absent by assumption.
    rewrite <- (take_drop_middle l i socket) at 2 by assumption.
    rewrite filter_app, filter_cons_False by tauto.
    rewrite !filter_absent by assumption. apply delete_take_drop.
  - match goal with IH : _ -> _ -> _ = _ |- _ => apply IH; [assumption |] end.
    destruct (l !! i) as [y|] eqn:Hy.
    + rewrite (take_S_r l i y Hy), elem_of_app, list_elem_of_singleton.
      intros [Hin | ->]; [exact (Htake Hin) | congruence].
    + apply lookup_ge_None in Hy. lia.
Qed.

Lemma removeConnection_loop_sublist socket i l :
  removeConnection_loop socket i l `sublist_of` l.
Proof.
  funelim (removeConnection_loop socket i l); try reflexivity.
  - etrans; [eassumption |]. apply sublist_delete.
  - assumption.
Qed.

Section WithFrameType.
Context {Frame : Type}.

Local Abbreviation State := (@Plugins.Server.State Frame).

Lemma removeConnection_sockets (s : State) c :
  c <> nullptr -> NoDup (m_sockets s) ->
  m_sockets (removeConnection c s) = filter (fun x => x <> c) (m_sockets s).
Proof.
  intros Hc Hnd. unfold removeConnection.
  destruct (decide (c = nullptr)); [done |]. simpl.
  by rewrite removeConnection_loop_filter
    by (done || (rewrite take_0; apply not_elem_of_nil)).
Qed.

(** X1: on a connection set that lists no socket twice, [removeConnection]
    for a non-null sender leaves exactly the other connections, in their
    order, schedules the sender's socket for deletion and changes no other
    socket, no queued frame and not the enabled flag. *)
Theorem removeConnection_exact (s : State) c :
  c <> nullptr -> NoDup (m_sockets s) ->
  m_sockets (removeConnection c s) = filter (fun x => x <> c) (m_sockets s) /\
  (c ∉ m_sockets (removeConnection c s)) /\
  heap (removeConnection c s) = alter deleteLater c (heap s) /\
  m_frames (removeConnection c s) = m_frames s /\
  m_enabled (removeConnection c s) = m_enabled s.
Proof.
  intros Hc Hnd. rewrite removeConnection_sockets by done.
  split; [done |]. split.
  - intros Hin. apply list_elem_of_filter in Hin as [Hne _]. done.
  - unfold removeConnection. by destruct (decide (c = nullptr)).
Qed.

(** *** Deliveries *)

Lemma with_heap_same (s : State) : with_heap (heap s) s = s.
Proof. by destruct s. Qed.

Lemma send_to_only_heap json (s : State) q :
  send_to json s q = with_heap (heap (send_to json s q)) s.
Proof.
  unfold send_to. destruct (decide (q = nullptr)); [by rewrite with_heap_same |].
  destruct (heap s !! q) as [k|]; [| by rewrite with_heap_same].
  destruct (isWritable k); [done | by rewrite with_heap_same].
Qed.

Lemma foldl_send_to_only_heap json l (s : State) :
  foldl (send_to json) s l = with_heap (heap (foldl (send_to json) s l)) s.
Proof.
  revert s. induction l as [| q l IH]; intros s; simpl;
    [by rewrite with_heap_same |].
  rewrite IH. set (h := heap _). by rewrite (send_to_only_heap json s q).
Qed.

Lemma send_to_lookup json (s : State) q p :
  heap (send_to json s q) !! p =
    if decide (p = q /\ q <> nullptr) then deliver json <$> heap s !! p
    else heap s !! p.
Proof.
  unfold send_to, deliver.
  destruct (decide (q = nullptr)) as [-> | Hq].
  { case_decide as Hd; [by destruct Hd | done]. }
  destruct (decide (p = q)) as [-> | Hpq].
  - rewrite decide_True by done.
    destruct (heap s !! q) as [k|] eqn:Hk; [| by rewrite Hk].
    destruct (isWritable k) eqn:Hw; simpl.
    + by rewrite lookup_alter_eq, Hk; simpl; rewrite Hw.
    + by rewrite Hk; simpl; rewrite Hw.
  - rewrite decide_False by tauto.
    destruct (heap s !! q) as [k|]; [| done].
    destruct (isWritable k); [| done]. simpl. by rewrite lookup_alter_ne.
Qed.

Lemma foldl_send_to_lookup json l (s : State) p :
  NoDup l ->
  heap (foldl (send_to json) s l) !! p = delivered json l (heap s) p.
Proof.
  revert s. induction l as [| q l IH]; intros s Hnd.
  { unfold delivered. case_decide as Hd; [| done].
    destruct Hd as [Hin _]. by apply elem_of_nil in Hin. }
  apply NoDup_cons in Hnd as [Hq Hnd].
  cbn [foldl]. rewrite IH by done. unfold delivered. rewrite send_to_lookup.
  pose proof (elem_of_cons l p q) as Hcons.
  destruct (decide (p = q)) as [Hpq | Hpq];
    destruct (decide (p ∈ l)); destruct (decide (p = nullptr));
    try (rewrite <- Hpq in * ); repeat case_decide; try done; exfalso; tauto.
Qed.

Lemma registerFrame_many (fs : list Frame) (s : State) :
  enabled s = true ->
  foldl (fun s f => registerFrame f s) s fs = with_frames (m_frames s ++ fs) s.
Proof.
  revert s. induction fs as [| f fs IH]; intros s He; simpl.
  - rewrite app_nil_r. by destruct s.
  - unfold registerFrame at 2. rewrite He. rewrite IH by done. simpl.
    by rewrite <- app_assoc.
Qed.


End WithFrameType.

Section WithFrame.
Context {Frame : Type}.
Context (Frame_serialize : Frame -> QJsonObject).
Context (toJson : QJsonObject -> QByteArray).
Context (toBase64 : QByteArray -> QByteArray).

Local Abbreviation State := (@Plugins.Server.State Frame).
Local Abbreviation sendProcessedData :=
  (Plugins.Server.sendProcessedData Frame_serialize toJson).
Local Abbreviation sendRawData :=
  (Plugins.Server.sendRawData toJson toBase64).
Local Abbreviation handle :=
  (Plugins.Server.handle Frame_serialize toJson toBase64).
Local Abbreviation run := (ServerRuns.run Frame_serialize toJson toBase64).
Local Abbreviation frames_message :=
  (ServerRuns.frames_message Frame_serialize toJson).
Local Abbreviation raw_message := (ServerRuns.raw_message toJson toBase64).

(** X2: Enabled, with at least one connection and no socket listed twice,
    [sendRawData] changes nothing but the sockets: every listed, non-null,
    writable socket has the one raw message appended to what was written
    to it, and every other socket (unwritable, or not in the list) is as it
    was. No frame is queued or dropped. *)
Theorem sendRawData_delivers (data : QByteArray) (s : State) :
  enabled s = true -> m_sockets s <> [] -> NoDup (m_sockets s) ->
  exists h,
    sendRawData data s = with_heap h s /\
    forall p, h !! p = delivered (raw_message data) (m_sockets s) (heap s) p.
Proof.
  intros He Hs Hnd. unfold Plugins.Server.sendRawData. rewrite He. simpl.
  destruct (m_sockets s) as [| q l] eqn:Hl; [done |]. simpl length.
  cbn [Nat.ltb Nat.leb]. unfold broadcast. rewrite Hl.
  eexists. split; [apply foldl_send_to_only_heap |].
  intros p. by apply foldl_send_to_lookup.
Qed.

Lemma flush_delivers (s : State) :
  enabled s = true -> m_frames s <> [] -> m_sockets s <> [] ->
  NoDup (m_sockets s) ->
  exists h,
    sendProcessedData s = with_frames [] (with_heap h s) /\
    forall p,
      h !! p = delivered (frames_message (m_frames s)) (m_sockets s) (heap s) p.
Proof.
  intros He Hf Hs Hnd. unfold Plugins.Server.sendProcessedData.
  rewrite He. simpl negb. cbv iota.
  destruct (m_frames s) as [| f fs] eqn:Hfs; [done |].
  destruct (m_sockets s) as [| q l] eqn:Hl; [done |].
  cbn [length Nat.ltb Nat.leb map]. unfold broadcast. rewrite Hl.
  eexists. split.
  - rewrite foldl_send_to_only_heap at 1. reflexivity.
  - intros p. by apply foldl_send_to_lookup.
Qed.

(** X3: Enabled, with at least one frame queued, at least one connection and
    no socket listed twice, [sendProcessedData] empties the queue and
    writes one message, built from all queued frames in their order, to
    every listed, non-null, writable socket; every other socket is as it
    was. *)
Theorem sendProcessedData_delivers (s : State) :
  enabled s = true -> m_frames s <> [] -> m_sockets s <> [] ->
  NoDup (m_sockets s) ->
  exists h,
    sendProcessedData s = with_frames [] (with_heap h s) /\
    forall p,
      h !! p = delivered (frames_message (m_frames s)) (m_sockets s) (heap s) p.
Proof. apply flush_delivers. Qed.

(** *** Registering frames, then flushing *)

(** X4: Enabled, with a connection set that is not empty and lists no socket
    twice: registering the frames [fs] (at least one) and then flushing
    sends one message that holds the frames queued before followed by [fs],
    in arrival order, to every listed writable socket, and leaves the queue
    empty. *)
Theorem register_then_flush (fs : list Frame) (s : State) :
  enabled s = true -> fs <> [] -> m_sockets s <> [] -> NoDup (m_sockets s) ->
  exists h,
    sendProcessedData (foldl (fun s f => registerFrame f s) s fs)
    = with_frames [] (with_heap h s) /\
    forall p,
      h !! p = delivered (frames_message (m_frames s ++ fs)) (m_sockets s)
                         (heap s) p.
Proof.
  intros He Hfs Hs Hnd. rewrite registerFrame_many by done.
  destruct (flush_delivers (with_frames (m_frames s ++ fs) s))
    as (h & Heq & Hh); try done.
  { simpl. intros Happ. apply app_eq_nil in Happ as [_ ?]. done. }
  exists h. split; [| exact Hh]. rewrite Heq. reflexivity.
Qed.

(** X5: a second flush right after a flush changes nothing: whatever the
    state, [sendProcessedData] twice is [sendProcessedData] once. *)
Theorem sendProcessedData_twice (s : State) :
  sendProcessedData (sendProcessedData s) = sendProcessedData s.
Proof.
  destruct (ServerFacts.sendProcessedData_frame Frame_serialize toJson s)
    as (He & _ & Hid).
  destruct (m_enabled s) eqn:Hen; [| by rewrite !(Hid eq_refl)].
  destruct (m_sockets s) as [| q l] eqn:Hl.
  { assert (Hsame : sendProcessedData s = s).
    { unfold Plugins.Server.sendProcessedData, enabled. rewrite Hen, Hl.
      simpl. by destruct (length (m_frames s) <=? 0)%nat. }
    by rewrite !Hsame. }
  assert (Hclear : m_frames (sendProcessedData s) = []).
  { unfold Plugins.Server.sendProcessedData, enabled. rewrite Hen, Hl. simpl.
    by destruct (m_frames s) eqn:Hf. }
  set (s' := sendProcessedData s) in *.
  unfold Plugins.Server.sendProcessedData at 1. unfold enabled.
  rewrite He, Hclear. reflexivity.
Qed.

(** X6: while Disabled the server ignores frames, flush ticks, raw data and
    bytes from plugins: each of these handlers returns the state it was
    given. *)
Theorem disabled_ignores (s : State) f data p :
  enabled s = false ->
  registerFrame f s = s /\
  sendProcessedData s = s /\
  sendRawData data s = s /\
  onDataReceived p s = s.
Proof.
  intros He. unfold registerFrame, Plugins.Server.sendProcessedData,
    Plugins.Server.sendRawData, onDataReceived. rewrite He. done.
Qed.

(** *** Runs with fresh connection requests *)

Lemma handle_connections_distinct e (s : State) :
  admissible e s -> connections_distinct s -> connections_distinct (handle e s).
Proof.
  unfold connections_distinct. intros Hadm (Hnd & Hns & Hnp).
  destruct e as [p k | b | | f | | d | p | p | p er m];
    cbn [Plugins.Server.handle].
  - destruct Hadm as (Hp & Hps & Hpp). simpl.
    split; [| split; [done |]].
    + rewrite app_assoc. apply NoDup_app. split; [done |]. split.
      * intros x Hx Hin. apply list_elem_of_singleton in Hin as ->.
        apply elem_of_app in Hx as [? | ?]; done.
      * apply NoDup_singleton.
    + rewrite elem_of_app, list_elem_of_singleton. intros [? | ?]; done.
  - unfold setEnabled. destruct b; simpl; [done |].
    destruct (ServerFacts.setEnabled_loop_frame 0
                (effect (Emit "enabledChanged") (with_enabled false s)))
      as (_ & _ & -> & _). simpl.
    apply NoDup_app in Hnd as (_ & _ & Hnd).
    split; [done |]. split; [apply not_elem_of_nil | done].
  - unfold acceptConnection, nextPendingConnection, enabled.
    destruct (pending s) as [| q r] eqn:Hq; simpl.
    + destruct (m_enabled s); simpl; rewrite ?Hq; done.
    + apply not_elem_of_cons in Hnp as [Hqn Hnr].
      rewrite bool_decide_eq_false_2 by done. simpl.
      assert (Hnd' : NoDup (m_sockets s ++ r)).
      { apply (sublist_NoDup _ _ Hnd).
        apply sublist_app; [done |]. by apply sublist_cons. }
      destruct (m_enabled s); simpl.
      * split; [| split; [| done]].
        -- rewrite <- app_assoc. exact Hnd.
        -- rewrite elem_of_app, list_elem_of_singleton.
           intros [? | ?]; done.
      * destruct (decide (q = nullptr)); simpl; done.
  - unfold registerFrame. destruct (enabled s); done.
  - destruct (ServerFacts.sendProcessedData_frame Frame_serialize toJson s)
      as (_ & Hs & _).
    assert (Hp : pending (sendProcessedData s) = pending s).
    { unfold Plugins.Server.sendProcessedData.
      destruct (negb (enabled s)); [done |].
      destruct (length (m_frames s) <=? 0)%nat; [done |].
      destruct (length (m_sockets s) <? 1)%nat; [done |]. simpl.
      destruct (0 <? _)%nat; [| done]. simpl. unfold broadcast.
      by rewrite foldl_send_to_only_heap. }
    rewrite Hs, Hp. done.
  - destruct (ServerFacts.sendRawData_frame toJson toBase64 d s)
      as (_ & Hs & _).
    assert (Hp : pending (sendRawData d s) = pending s).
    { unfold Plugins.Server.sendRawData.
      destruct (negb (enabled s)); [done |].
      destruct (length (m_sockets s) <? 1)%nat; [done |]. unfold broadcast.
      by rewrite foldl_send_to_only_heap. }
    rewrite Hs, Hp. done.
  - unfold removeConnection. destruct (decide (p = nullptr)); [done |]. simpl.
    pose proof (removeConnection_loop_sublist p 0 (m_sockets s)) as Hsub.
    split; [| split; [| done]].
    + apply (sublist_NoDup _ _ Hnd). by apply sublist_app.
    + intros Hin. apply Hns. eapply elem_of_sublist; eassumption.
  - unfold onDataReceived.
    destruct (enabled s && negb (bool_decide (p = nullptr))); [| done].
    destruct (heap s !! p); done.
  - unfold onErrorOccurred. destruct (decide (p = nullptr)); done.
Qed.

Lemma run_distinct (s : State) :
  run s -> connections_distinct s.
Proof.
  induction 1 as [ok err | e s Hr IH Hadm].
  - unfold connections_distinct. destruct ok; simpl;
      (split; [apply NoDup_nil_2 | split; apply not_elem_of_nil]).
  - by apply handle_connections_distinct.
Qed.

(** X7: in every state reached from the constructor by handler calls, when
    each connection request brings a new socket (not null, not connected,
    not already waiting), the connection set lists no socket twice, shares
    no socket with the waiting requests, and holds no null pointer. *)
Theorem run_connections_distinct (s : State) :
  run s -> connections_distinct s.
Proof. apply run_distinct. Qed.

(** X8: in every such state the disconnect handler does what it is for: the
    sender is no longer in the connection set, and every other connection
    still is. *)
Theorem run_removeConnection (s : State) c :
  run s -> c ∈ m_sockets s ->
  (c ∉ m_sockets (removeConnection c s)) /\
  forall x, x <> c ->
    (x ∈ m_sockets (removeConnection c s) <-> x ∈ m_sockets s).
Proof.
  intros Hr Hin.
  destruct (run_distinct s Hr) as (Hnd & Hns & _).
  apply NoDup_app in Hnd as (Hnd & _).
  assert (Hc : c <> nullptr) by (intros ->; done).
  rewrite (removeConnection_sockets s c Hc Hnd). split.
  - intros Hx. apply list_elem_of_filter in Hx as [Hne _]. done.
  - intros x Hx. rewrite list_elem_of_filter. tauto.
Qed.

End WithFrame.

(** *** On the sample states *)

Lemma removeConnection_exact_witness :
  m_sockets (removeConnection 1%nat Sample.server_two_clients) = [2%nat] /\
  heap (removeConnection 1%nat Sample.server_two_clients) !! 2%nat
  = Some (Sample.socket false).
Proof.
  destruct (removeConnection_exact Sample.server_two_clients 1%nat)
    as (Hs & _ & Hh & _); [discriminate | compute_done |].
  split; [rewrite Hs; reflexivity | rewrite Hh; reflexivity].
Defined.

Lemma sendRawData_delivers_witness :
  exists h,
    Plugins.Server.sendRawData Sample.toJson Sample.toBase64 "abc"
      Sample.server_two_clients
    = with_heap h Sample.server_two_clients /\
    forall p,
      h !! p = delivered (ServerRuns.raw_message Sample.toJson Sample.toBase64 "abc")
                         [1; 2]%nat (heap Sample.server_two_clients) p.
Proof.
  apply (sendRawData_delivers Sample.toJson Sample.toBase64 "abc"
           Sample.server_two_clients);
    [reflexivity | discriminate | compute_done].
Defined.

Lemma sendProcessedData_delivers_witness :
  exists h,
    Plugins.Server.sendProcessedData Sample.Frame_serialize Sample.toJson
      Sample.server_two_clients
    = with_frames [] (with_heap h Sample.server_two_clients) /\
    forall p,
      h !! p = delivered (ServerRuns.frames_message Sample.Frame_serialize
                            Sample.toJson [7%Z])
                         [1; 2]%nat (heap Sample.server_two_clients) p.
Proof.
  apply (sendProcessedData_delivers Sample.Frame_serialize Sample.toJson
           Sample.server_two_clients);
    [reflexivity | discriminate | discriminate | compute_done].
Defined.

Lemma register_then_flush_witness :
  exists h,
    Plugins.Server.sendProcessedData Sample.Frame_serialize Sample.toJson
      (foldl (fun s f => registerFrame f s) Sample.server_two_clients
             [8; 9]%Z)
    = with_frames [] (with_heap h Sample.server_two_clients) /\
    forall p,
      h !! p = delivered (ServerRuns.frames_message Sample.Frame_serialize
                            Sample.toJson [7; 8; 9]%Z)
                         [1; 2]%nat (heap Sample.server_two_clients) p.
Proof.
  apply (register_then_flush Sample.Frame_serialize Sample.toJson
           [8; 9]%Z Sample.server_two_clients);
    [reflexivity | discriminate | discriminate | compute_done].
Defined.

(** Three frames in one interval, one writable client and one unwritable:
    one message with three entries for the first, nothing for the second. *)
Example three_frames_one_message :
  let s := Plugins.Server.sendProcessedData Sample.Frame_serialize
             Sample.toJson
             (foldl (fun s f => registerFrame f s)
                    (setEnabled true Sample.server_two_clients)
                    [1; 2; 3]%Z) in
  (sock_outbox <$> heap s !! 1%nat) =
    Some [ServerRuns.frames_message Sample.Frame_serialize Sample.toJson
            [1; 2; 3]%Z] /\
  (sock_outbox <$> heap s !! 2%nat) = Some [] /\
  m_frames s = [].
Proof. vm_compute. repeat split. Qed.

Lemma disabled_ignores_witness :
  registerFrame 7%Z Sample.server_disabled_request
  = Sample.server_disabled_request /\
  onDataReceived 3%nat Sample.server_disabled_request
  = Sample.server_disabled_request.
Proof.
  destruct (disabled_ignores Sample.Frame_serialize Sample.toJson
              Sample.toBase64 Sample.server_disabled_request
              7%Z "abc" 3%nat) as (Hr & _ & _ & Hd); [reflexivity |].
  split; [exact Hr | exact Hd].
Defined.

Lemma sample_run_is_run :
  ServerRuns.run Sample.Frame_serialize Sample.toJson Sample.toBase64
    Scenario.sample_run.
Proof.
  unfold Scenario.sample_run.
  repeat (apply run_step; [| compute_done]). apply run_init.
Defined.

Lemma run_connections_distinct_witness :
  m_sockets Scenario.sample_run = [4; 5]%nat /\ connections_distinct Scenario.sample_run.
Proof.
  split; [reflexivity |].
  apply (run_connections_distinct Sample.Frame_serialize Sample.toJson
           Sample.toBase64 Scenario.sample_run sample_run_is_run).
Defined.

Lemma run_removeConnection_witness :
  (4%nat ∉ m_sockets (removeConnection 4%nat Scenario.sample_run)) /\
  (5%nat ∈ m_sockets (removeConnection 4%nat Scenario.sample_run)).
Proof.
  destruct (run_removeConnection Sample.Frame_serialize Sample.toJson
              Sample.toBase64 Scenario.sample_run 4%nat sample_run_is_run)
    as [Hgone Hkept]; [compute_done |].
  split; [exact Hgone |]. apply Hkept; [discriminate | compute_done].
Defined.

End ServerRunsFacts.

(** ** JSON::FrameParser: the success path, the smoke error, parse *)

Module FrameParserMoreFacts.
Import Qt JSON.FrameParser.

Lemma foldl_snoc_id {A} (l acc : list A) :
  foldl (fun (list : list A) x => list ++ [x]) acc l = acc ++ l.
Proof.
  revert acc. induction l as [| x l IH]; intros acc; simpl.
  - by rewrite app_nil_r.
  - by rewrite IH, <- app_assoc.
Qed.

Section WithEngine.
Context `{QJSEngine}.

(** X9: [loadScript] returns true exactly when the global object has a
    callable [parse] after the evaluation, the evaluation collected no
    error, and the smoke invocation did not return an error. In that case
    the function found in the global object is the active one afterwards,
    it is the one a later [parse] calls, and nothing is reported. *)
Theorem loadScript_accepts script s :
  (fst (loadScript script s) = true <->
   no_entry_point script s = false /\ load_errors script s = [] /\
   isError (load_ret script s) = false) /\
  (fst (loadScript script s) = true ->
   m_parseFunction (snd (loadScript script s)) = load_fun script s /\
   load_effects script s = [] /\
   forall frame separator,
     parse_callee frame separator (snd (loadScript script s))
     = Some (load_fun script s)).
Proof.
  split; [apply FrameParserFacts.loadScript_success |].
  intros Hok.
  pose proof (FrameParserFacts.loadScript_success_installs script s Hok)
    as Hfun.
  split; [exact Hfun |]. split.
  - revert Hok. unfold load_effects.
    rewrite FrameParserFacts.loadScript_cases. simpl.
    destruct (no_entry_point script s); simpl; [done |].
    destruct (QStringList_isEmpty (load_errors script s)); simpl; [| done].
    destruct (isError (load_ret script s)); simpl; [done |].
    intros _. by rewrite drop_all.
  - intros frame separator.
    by rewrite FrameParserFacts.parse_callee_is_parseFunction, Hfun.
Qed.

(** X10: when the script leaves a callable [parse], the evaluation
    collected no error and the smoke invocation returns an error,
    [loadScript] returns false and the one thing it reports is the
    error-detected message with the name of the error's category. *)
Theorem loadScript_smoke_error script s :
  no_entry_point script s = false -> load_errors script s = [] ->
  isError (load_ret script s) = true ->
  fst (loadScript script s) = false /\
  load_effects script s =
    [MessageBox "Frame parser error detected!"
                (errorStr (errorType (load_ret script s)))].
Proof.
  intros Hentry Herr Hret. unfold load_effects.
  rewrite FrameParserFacts.loadScript_cases. simpl.
  rewrite Hentry, Herr, Hret. simpl. by rewrite drop_app_length.
Qed.

(** X11: a load reports nothing when it succeeds and exactly one message
    box when it fails. *)
Theorem loadScript_reports_once script s :
  length (load_effects script s)
  = (if fst (loadScript script s) then 0 else 1)%nat /\
  forall e, e ∈ load_effects script s -> exists title text, e = MessageBox title text.
Proof.
  unfold load_effects. rewrite FrameParserFacts.loadScript_cases. simpl.
  destruct (no_entry_point script s); simpl.
  { rewrite drop_app_length. split; [done |].
    intros e He. apply list_elem_of_singleton in He as ->. by eexists _, _. }
  destruct (QStringList_isEmpty (load_errors script s)); simpl.
  2: { rewrite drop_app_length. split; [done |].
       intros e He. apply list_elem_of_singleton in He as ->. by eexists _, _. }
  destruct (isError (load_ret script s)); simpl.
  { rewrite drop_app_length. split; [done |].
    intros e He. apply list_elem_of_singleton in He as ->. by eexists _, _. }
  rewrite drop_all. split; [done |]. intros e He. by apply elem_of_nil in He.
Qed.

(** X12: [parse] makes one call, of the active function with the frame and
    the separator as its two arguments, and returns the string list of what
    the call returned, in order. It reports nothing and leaves the active
    function as it was, also when the call returned an error. *)
Theorem parse_returns_fields frame separator s :
  let args := [QJSValue_fromString frame; QJSValue_fromString separator] in
  let r := call (m_engine s) (m_parseFunction s) args in
  parse frame separator s
  = (toStringList (snd r),
     mkState (fst r) (m_parseFunction s) (effects s)
             (calls s ++ [(m_parseFunction s, args)])).
Proof.
  intros args r. unfold parse, do_call. fold args. fold r.
  destruct r as [e ret].
  unfold QStringList in *.
  by rewrite (foldl_snoc_id (A := QString) (toStringList ret) []).
Qed.

End WithEngine.

Lemma loadScript_accepts_witness :
  fst (loadScript Sample.script_split Sample.parser0) = true /\
  m_parseFunction (snd (loadScript Sample.script_split Sample.parser0))
  = Sample.VFunction Sample.BSplit.
Proof.
  destruct (loadScript_accepts Sample.script_split Sample.parser0)
    as [_ Hok].
  split; [reflexivity |].
  destruct (Hok eq_refl) as (Hfun & _). rewrite Hfun. reflexivity.
Defined.

Lemma loadScript_smoke_error_witness :
  fst (loadScript Sample.script_throw Sample.parser0) = false /\
  load_effects Sample.script_throw Sample.parser0 =
    [MessageBox "Frame parser error detected!" "Type error"].
Proof.
  apply (loadScript_smoke_error Sample.script_throw Sample.parser0);
    reflexivity.
Defined.

(** The splitting script on a frame, and on the empty frame. *)
Example parse_sample_frames :
  fst (parse "10,20" "," Sample.parser1) = ["10"; "20"] /\
  fst (parse EmptyString "," Sample.parser1) = [EmptyString] /\
  fst (parse "10;20" Sample.configured_separator Sample.parser1)
  = ["10"; "20"].
Proof. vm_compute. repeat split. Qed.

End FrameParserMoreFacts.

(** ** JSON::Group: what read builds, and reading back a serialisation *)

Module GroupMoreFacts.
Import Qt JSON.Group GroupSerialize.

(** *** [simplified] applied twice *)

Lemma simplified_from_started (s : QString) :
  simplified_from false true (simplified_from false true s)
  = simplified_from false true s /\
  simplified_from false true (simplified_from true true s)
  = simplified_from true true s.
Proof.
  induction s as [| c r [IHg IHh]]; [done |]. simpl.
  destruct (isSpace c) eqn:Hc; [done |]. simpl.
  rewrite Hc, IHg. done.
Qed.

Lemma simplified_idempotent (s : QString) :
  simplified (simplified s) = simplified s.
Proof.
  unfold simplified. induction s as [| c r IH]; [done |]. simpl.
  destruct (isSpace c) eqn:Hc; [exact IH |]. simpl. rewrite Hc.
  by rewrite (proj1 (simplified_from_started r)).
Qed.

Lemma length_omap_le {A B} (f : A -> option B) (l : list A) :
  (length (omap f l) <= length l)%nat.
Proof.
  induction l as [| x l IH]; [done |]. cbn [omap list_omap length].
  fold (omap f l). destruct (f x); cbn [length]; lia.
Qed.

Section WithDataset.
Context {Dataset : Type}.
Context (Dataset_new : Z -> Z -> Dataset).
Context (Dataset_read : Dataset -> QJsonObject -> bool * Dataset).

Local Abbreviation Group := (@JSON.Group.Group Dataset).
Local Abbreviation read := (JSON.Group.read Dataset_new Dataset_read).
Local Abbreviation read_datasets :=
  (JSON.Group.read_datasets Dataset_new Dataset_read).
Local Abbreviation read_element :=
  (GroupSerialize.read_element Dataset_new Dataset_read).

(** The datasets [read] builds from [array] for group [groupId]. *)
Local Abbreviation built groupId array :=
  (omap id (imap (read_element groupId) array)).

Lemma read_datasets_appends groupId (n : nat) (array : QJsonArray) datasets :
  read_datasets groupId (Z.of_nat n) array datasets
  = datasets
    ++ omap id (imap (fun j => read_element groupId (n + j)) array).
Proof.
  revert n datasets. induction array as [| v rest IH]; intros n datasets.
  - simpl. by rewrite app_nil_r.
  - cbn [JSON.Group.read_datasets].
    replace (Z.of_nat n + 1)%Z with (Z.of_nat (S n)) by lia.
    rewrite IH, imap_cons. cbn [omap list_omap id].
    rewrite (imap_ext ((fun j => read_element groupId (n + j)) ∘ S)
               (fun j => read_element groupId (S n + j)) rest)
      by (intros j x _; simpl; by rewrite Nat.add_succ_r).
    unfold GroupSerialize.read_element at 2. rewrite Nat.add_0_r.
    destruct (QJsonObject_isEmpty (toObject v)); simpl; [done |].
    destruct (Dataset_read _ _) as [[] d]; simpl; [| done].
    by rewrite <- app_assoc.
Qed.

Lemma read_cases (object : QJsonObject) (g : Group) :
  let title :=
    simplified (QVariant_toString (QJsonObject_value object "title")) in
  let widget :=
    simplified (QVariant_toString (QJsonObject_value object "widget")) in
  let array := toArray (QJsonObject_value object "datasets") in
  read object g =
    if negb (QJsonObject_isEmpty object) && negb (QString_isEmpty title)
       && negb (QJsonArray_isEmpty array)
    then ((0 <? length (built (m_groupId g) array))%nat,
          mkGroup (m_groupId g) title widget (built (m_groupId g) array))
    else (false, g).
Proof.
  intros title widget array. unfold JSON.Group.read.
  rewrite !GroupFacts.SAFE_READ_toString. fold title widget array.
  destruct (QJsonObject_isEmpty object); [done |].
  destruct (QString_isEmpty title); [done |].
  destruct (QJsonArray_isEmpty array); [done |].
  cbn [negb andb m_groupId m_title m_widget m_datasets]. unfold datasetCount.
  cbn [m_datasets].
  pose proof (read_datasets_appends (m_groupId g) 0 array []) as Happ.
  change (Z.of_nat 0) with 0%Z in Happ. rewrite Happ. reflexivity.
Qed.

(** X13: when the object is not empty, its simplified title is not empty
    and its "datasets" array is not empty, [read] rebuilds the group from
    the object alone: the identifier stays, title and widget are the
    object's simplified strings, and the datasets are, in array order,
    what [Dataset::read] returned for the non-empty objects it accepted,
    each created with its position in the array. The verdict is whether
    that list is non-empty. *)
Theorem read_builds (object : QJsonObject) (g : Group) :
  let title :=
    simplified (QVariant_toString (QJsonObject_value object "title")) in
  let widget :=
    simplified (QVariant_toString (QJsonObject_value object "widget")) in
  let array := toArray (QJsonObject_value object "datasets") in
  object <> [] -> title <> EmptyString -> array <> [] ->
  read object g =
    ((0 <? length (omap id (imap (read_element (m_groupId g)) array)))%nat,
     mkGroup (m_groupId g) title widget
             (omap id (imap (read_element (m_groupId g)) array))).
Proof.
  intros title widget array Ho Ht Ha. rewrite read_cases.
  fold title widget array.
  destruct object; [done |]. destruct title; [done |].
  destruct array; [done |]. reflexivity.
Qed.

(** X14: a group that [read] accepted has the identifier it had before, a
    non-empty title, and at least one dataset but no more datasets than the
    "datasets" array has elements. *)
Theorem read_accepted_group (object : QJsonObject) (g : Group) :
  fst (read object g) = true ->
  m_groupId (snd (read object g)) = m_groupId g /\
  m_title (snd (read object g)) <> EmptyString /\
  (1 <= datasetCount (snd (read object g))
     <= length (toArray (QJsonObject_value object "datasets")))%nat.
Proof.
  rewrite read_cases.
  destruct (QJsonObject_isEmpty object); [done |].
  destruct (simplified _) as [| c t] eqn:Ht; [done |].
  destruct (toArray _) as [| v rest] eqn:Ha; [done |].
  cbn [negb andb QString_isEmpty QJsonArray_isEmpty fst snd m_groupId m_title].
  unfold datasetCount. cbn [m_datasets]. rewrite Nat.ltb_lt. intros Hlen.
  split; [done |]. split; [done |]. split; [lia |].
  etrans; [apply length_omap_le |]. by rewrite length_imap.
Qed.

(** X15: the outcome of [read] does not depend on what the group held
    before: two groups with the same identifier get the same verdict, and
    when the verdict is true, the same content. *)
Theorem read_forgets_previous (object : QJsonObject) (g1 g2 : Group) :
  m_groupId g1 = m_groupId g2 ->
  fst (read object g1) = fst (read object g2) /\
  (fst (read object g1) = true -> snd (read object g1) = snd (read object g2)).
Proof.
  intros Hid. rewrite !read_cases, Hid.
  destruct (_ && _ && _); [| done]. done.
Qed.

End WithDataset.

Section RoundTrip.
Context {Dataset : Type}.
Context (Dataset_new : Z -> Z -> Dataset).
Context (Dataset_read : Dataset -> QJsonObject -> bool * Dataset).
Context (Dataset_serialize : Dataset -> QJsonObject).

Lemma serialize_datasets (l acc : list Dataset) (a : QJsonArray) :
  foldl (fun datasetArray dataset =>
           datasetArray ++ [JObject (Dataset_serialize dataset)]) a l
  = a ++ map (fun d => JObject (Dataset_serialize d)) l.
Proof.
  revert a. induction l as [| d l IH]; intros a; simpl.
  - by rewrite app_nil_r.
  - by rewrite IH, <- app_assoc.
Qed.

Lemma serialize_members (g : @JSON.Group.Group Dataset) :
  serialize Dataset_serialize g =
    [("title", JString (simplified (m_title g)));
     ("widget", JString (simplified (m_widget g)));
     ("datasets",
      JArray (map (fun d => JObject (Dataset_serialize d)) (m_datasets g)))].
Proof.
  unfold serialize. rewrite (serialize_datasets (m_datasets g) [] []).
  reflexivity.
Qed.

Lemma built_serialized gid (n : nat) (l : list Dataset) :
  (forall i d, l !! i = Some d ->
     Dataset_serialize d <> [] /\
     fst (Dataset_read (Dataset_new gid (Z.of_nat (n + i)))
                       (Dataset_serialize d)) = true) ->
  omap id (imap (fun i => GroupSerialize.read_element Dataset_new Dataset_read
                            gid (n + i))
                (map (fun d => JObject (Dataset_serialize d)) l))
  = imap (fun i d =>
            snd (Dataset_read (Dataset_new gid (Z.of_nat (n + i)))
                              (Dataset_serialize d)))
         l.
Proof.
  revert n. induction l as [| d l IH]; intros n Hacc; [done |].
  cbn [map]. rewrite !imap_cons. cbn [omap list_omap id].
  destruct (Hacc 0%nat d eq_refl) as [Hne Hok].
  unfold GroupSerialize.read_element at 1. cbn [toObject].
  destruct (Dataset_serialize d) as [| m o] eqn:Hs; [done |].
  cbn [QJsonObject_isEmpty].
  destruct (Dataset_read _ _) as [ok d'] eqn:Hr. simpl in Hok. subst ok.
  cbn [snd]. f_equal.
  rewrite (imap_ext (_ ∘ S)
             (fun i => GroupSerialize.read_element Dataset_new
                         Dataset_read gid (S n + i)))
    by (intros j x _; simpl; by rewrite Nat.add_succ_r).
  rewrite (imap_ext (_ ∘ S)
             (fun i d => snd (Dataset_read
                                (Dataset_new gid (Z.of_nat (S n + i)))
                                (Dataset_serialize d))))
    by (intros j x _; simpl; by rewrite Nat.add_succ_r).
  apply IH. intros i x Hx.
  replace (S n + i)%nat with (n + S i)%nat by lia. apply (Hacc (S i) x Hx).
Qed.

(** X16: reading back a serialisation. If a group's simplified title is not
    empty, it has at least one dataset, and every dataset serialises to a
    non-empty object that [Dataset::read] accepts at its position, then
    [read] of [serialize] of the group returns true and gives a group with
    the simplified title and widget and with one dataset per original
    dataset, in order: what [Dataset::read] made of its serialisation. *)
Theorem read_serialize (g g0 : @JSON.Group.Group Dataset) :
  simplified (m_title g) <> EmptyString ->
  m_datasets g <> [] ->
  (forall i d, m_datasets g !! i = Some d ->
     Dataset_serialize d <> [] /\
     fst (Dataset_read (Dataset_new (m_groupId g0) (Z.of_nat i))
                       (Dataset_serialize d)) = true) ->
  JSON.Group.read Dataset_new Dataset_read (serialize Dataset_serialize g) g0
  = (true,
     mkGroup (m_groupId g0) (simplified (m_title g))
             (simplified (m_widget g))
             (imap (fun i d =>
                      snd (Dataset_read
                             (Dataset_new (m_groupId g0) (Z.of_nat i))
                             (Dataset_serialize d)))
                   (m_datasets g))).
Proof.
  intros Ht Hd Hacc.
  rewrite (read_cases Dataset_new Dataset_read), serialize_members.
  cbn [QJsonObject_value String.eqb Ascii.eqb Bool.eqb QVariant_toString
       toArray QJsonObject_isEmpty negb andb].
  rewrite !simplified_idempotent.
  destruct (simplified (m_title g)) as [| c t] eqn:Etitle; [done |].
  cbn [QString_isEmpty negb andb].
  destruct (m_datasets g) as [| d0 l0] eqn:El; [done |].
  cbn [map QJsonArray_isEmpty negb]. change (JObject (Dataset_serialize d0)
    :: map (fun d => JObject (Dataset_serialize d)) l0)
    with (map (fun d => JObject (Dataset_serialize d)) (d0 :: l0)).
  pose proof (built_serialized (m_groupId g0) 0 (d0 :: l0) Hacc) as Hb.
  cbn [Nat.add] in Hb.
  change (fun i => GroupSerialize.read_element Dataset_new Dataset_read
                     (m_groupId g0) i)
    with (GroupSerialize.read_element Dataset_new Dataset_read (m_groupId g0))
    in Hb.
  rewrite Hb, length_imap. reflexivity.
Qed.

End RoundTrip.

(** *** On the sample groups *)

Lemma read_builds_witness :
  JSON.Group.read Sample.Dataset_new Sample.Dataset_read
    Sample.object_one_dataset Sample.group_old
  = (true, mkGroup 1 "New title" "gps" [Sample.mkDataset 1 1 "Altitude"]).
Proof.
  rewrite (read_builds Sample.Dataset_new Sample.Dataset_read
             Sample.object_one_dataset Sample.group_old);
    [reflexivity | discriminate | discriminate | discriminate].
Defined.

Lemma read_accepted_group_witness :
  m_title (snd (JSON.Group.read Sample.Dataset_new Sample.Dataset_read
                  Sample.object_one_dataset Sample.group_old))
  <> EmptyString.
Proof.
  apply (read_accepted_group Sample.Dataset_new Sample.Dataset_read
           Sample.object_one_dataset Sample.group_old).
  reflexivity.
Defined.

Lemma read_forgets_previous_witness :
  snd (JSON.Group.read Sample.Dataset_new Sample.Dataset_read
         Sample.object_one_dataset Sample.group_old)
  = snd (JSON.Group.read Sample.Dataset_new Sample.Dataset_read
           Sample.object_one_dataset (Group_new 1)).
Proof.
  apply (read_forgets_previous Sample.Dataset_new Sample.Dataset_read
           Sample.object_one_dataset Sample.group_old (Group_new 1));
    reflexivity.
Defined.

Lemma read_serialize_witness :
  JSON.Group.read Sample.Dataset_new Sample.Dataset_read
    (serialize Scenario.Dataset_serialize Scenario.group_gps) (Group_new 7)
  = (true,
     mkGroup 7 "GPS position" "map"
       [Sample.mkDataset 7 0 "Latitude"; Sample.mkDataset 7 1 "Longitude"]).
Proof.
  rewrite (read_serialize Sample.Dataset_new Sample.Dataset_read
             Scenario.Dataset_serialize Scenario.group_gps (Group_new 7));
    [reflexivity | discriminate | discriminate |].
  intros [| [| i]] d Hd; simpl in Hd; [| | discriminate];
    injection Hd as <-; split; [discriminate | reflexivity | discriminate | reflexivity].
Defined.

End GroupMoreFacts.

(** ** Widgets::MultiPlot: colours, range, data *)

Module MultiPlotFacts.
Import Qt Widgets.MultiPlot.

Lemma resize_nil {A} (d : A) (n : nat) : resize d n [] = replicate n d.
Proof. unfold resize. by rewrite take_nil, Nat.sub_0_r. Qed.

Lemma length_resize {A} (d : A) (n : nat) (l : list A) :
  length (resize d n l) = n.
Proof.
  unfold resize. rewrite length_app, length_take, length_replicate. lia.
Qed.

(** *** The colour of one dataset *)

Lemma QJsonArray_at_out (colors : QJsonArray) (i : Z) :
  (i < 0 \/ Z.of_nat (length colors) <= i)%Z ->
  QJsonArray_at colors i = JUndefined.
Proof.
  intros Hi. unfold QJsonArray_at.
  destruct (0 <=? i)%Z eqn:H0; [| done].
  destruct (i <? Z.of_nat (length colors))%Z eqn:H1; [| done]. lia.
Qed.

Lemma QJsonArray_at_in (colors : QJsonArray) (i : Z) :
  (0 <= i < Z.of_nat (length colors))%Z ->
  QJsonArray_at colors i = default JUndefined (colors !! Z.to_nat i).
Proof.
  intros Hi. unfold QJsonArray_at.
  destruct (0 <=? i)%Z eqn:H0; [| lia].
  destruct (i <? Z.of_nat (length colors))%Z eqn:H1; [done | lia].
Qed.

(** The colour picked for a position [index] of the palette: the entry at
    [index] when there is one, the first entry when [index] is the size of
    the palette, and the empty string otherwise. *)
Lemma pick_color_palette (colors : QJsonArray) (index : Z) :
  colors <> [] ->
  pick_color colors index =
    Some (if (0 <=? index)%Z && (index <? Z.of_nat (length colors))%Z
          then QJsonValue_toString
                 (default JUndefined (colors !! Z.to_nat index))
          else if (index =? Z.of_nat (length colors))%Z
               then QJsonValue_toString (default JUndefined (colors !! 0%nat))
               else EmptyString).
Proof.
  intros Hne. unfold pick_color.
  assert (Hn : (0 < Z.of_nat (length colors))%Z) by (destruct colors; simpl; [done | lia]).
  destruct (index <? Z.of_nat (length colors))%Z eqn:Hlt.
  - destruct (0 <=? index)%Z eqn:H0; simpl.
    + rewrite QJsonArray_at_in by lia. done.
    + rewrite QJsonArray_at_out by lia.
      destruct (index =? _)%Z eqn:He; [lia | done].
  - rewrite andb_false_r.
    destruct (index =? 0)%Z eqn:Hz; [lia |].
    destruct (index =? Z.of_nat (length colors))%Z eqn:He.
    + apply Z.eqb_eq in He. rewrite He, Z.rem_same by lia.
      rewrite QJsonArray_at_in by lia. done.
    + rewrite Z.rem_small by lia. rewrite QJsonArray_at_out by lia. done.
Qed.

Lemma pick_color_none (colors : QJsonArray) (index : Z) :
  pick_color colors index = None <-> colors = [] /\ index = 0%Z.
Proof.
  split.
  - destruct colors as [| c colors].
    + unfold pick_color. cbn [length].
      destruct (index <? Z.of_nat 0)%Z; [done |].
      destruct (index =? 0)%Z eqn:Hz; [| done]. intros _. split; [done | lia].
    + rewrite pick_color_palette by done. done.
  - intros [-> ->]. reflexivity.
Qed.

Section WithDashboard.
Context {Dataset : Type}.
Context (Dataset_index : Dataset -> Z).
Context {qreal : Type}.
Context (qreal_of_int : Z -> qreal).

Local Abbreviation State := (@Widgets.MultiPlot.State qreal).
Local Abbreviation Dashboard := (@Widgets.MultiPlot.Dashboard Dataset qreal).
Local Abbreviation assign_colors :=
  (Widgets.MultiPlot.assign_colors Dataset_index).
Local Abbreviation onThemeChanged :=
  (Widgets.MultiPlot.onThemeChanged Dataset_index).
Local Abbreviation updateRange := (Widgets.MultiPlot.updateRange qreal_of_int).
Local Abbreviation updateData := (Widgets.MultiPlot.updateData qreal_of_int).
Local Abbreviation write_points :=
  (Widgets.MultiPlot.write_points qreal_of_int).
Local Abbreviation write_curves :=
  (Widgets.MultiPlot.write_curves qreal_of_int).

Lemma assign_colors_some colors (f : Dataset -> QString) datasets :
  forall pre suf : QStringList,
  length suf = length datasets ->
  (forall d, d ∈ datasets -> pick_color colors (Dataset_index d - 1) = Some (f d)) ->
  assign_colors colors (length pre) datasets (pre ++ suf)
  = Some (pre ++ map f datasets).
Proof.
  unfold QStringList.
  induction datasets as [| d rest IH]; intros pre suf Hlen Hpick.
  - destruct suf; [done | discriminate].
  - destruct suf as [| x suf]; [discriminate |]. simpl in Hlen.
    cbn [Widgets.MultiPlot.assign_colors].
    rewrite (Hpick d) by (apply elem_of_cons; by left).
    unfold QStringList.
    rewrite insert_app_r_alt, Nat.sub_diag by lia. cbn [insert list_insert].
    replace (S (length pre)) with (length (pre ++ [f d]))
      by (rewrite length_app; simpl; lia).
    rewrite (cons_middle (f d) pre suf), app_assoc.
    rewrite IH; [| lia | intros d' Hd'; apply Hpick, elem_of_cons; by right].
    by rewrite <- app_assoc.
Qed.

Lemma assign_colors_none colors datasets i (m_colors : QStringList) :
  assign_colors colors i datasets m_colors = None <->
  exists d, d ∈ datasets /\ pick_color colors (Dataset_index d - 1) = None.
Proof.
  revert i m_colors. induction datasets as [| d rest IH]; intros i m_colors.
  - simpl. split; [done |]. intros (d & Hd & _). by apply elem_of_nil in Hd.
  - cbn [Widgets.MultiPlot.assign_colors].
    destruct (pick_color colors (Dataset_index d - 1)) as [c|] eqn:Hp.
    + rewrite IH. split.
      * intros (d' & Hd' & Hn). exists d'. split; [apply elem_of_cons; by right | done].
      * intros (d' & Hd' & Hn). apply elem_of_cons in Hd' as [-> | Hd'].
        -- congruence.
        -- by exists d'.
    + split; [| done]. intros _. exists d. split; [apply elem_of_cons; by left | done].
Qed.

(** X17: with a palette that is not empty, [onThemeChanged] on a valid
    multiplot gives one colour per dataset of the group. For a dataset
    whose [index() - 1] is a position of the palette it is the palette's
    entry there; when [index() - 1] equals the size of the palette it is
    the palette's first entry; for every other value it is the empty
    string. The plot data is not touched. *)
Theorem onThemeChanged_colors (colors : QJsonArray) (dash : Dashboard)
  (w : State) group :
  colors <> [] ->
  (0 <= m_index w)%Z ->
  multiplots dash !! Z.to_nat (m_index w) = Some group ->
  exists w',
    onThemeChanged colors dash w = Some w' /\
    m_data w' = m_data w /\
    m_colors w' =
      map (fun d =>
             let index := (Dataset_index d - 1)%Z in
             if (0 <=? index)%Z && (index <? Z.of_nat (length colors))%Z
             then QJsonValue_toString
                    (default JUndefined (colors !! Z.to_nat index))
             else if (index =? Z.of_nat (length colors))%Z
                  then QJsonValue_toString
                         (default JUndefined (colors !! 0%nat))
                  else EmptyString)
          (JSON.Group.m_datasets group).
Proof.
  intros Hne Hidx Hgroup. unfold Widgets.MultiPlot.onThemeChanged.
  assert (Hvalid : (0 <=? m_index w)%Z && (m_index w <? multiPlotCount dash)%Z
                   = true).
  { apply lookup_lt_Some in Hgroup. unfold multiPlotCount.
    apply andb_true_intro. split; [apply Z.leb_le | apply Z.ltb_lt]; lia. }
  rewrite Hvalid, Hgroup. rewrite resize_nil.
  pose proof (assign_colors_some colors _ (JSON.Group.m_datasets group) []
                (replicate (JSON.Group.datasetCount group) EmptyString)
                (length_replicate _ _)
                (fun d _ => pick_color_palette colors (Dataset_index d - 1) Hne))
    as Hassign.
  cbn [length app] in Hassign. rewrite Hassign.
  eexists. split; [reflexivity |]. split; reflexivity.
Qed.

(** X18: on a valid multiplot, [onThemeChanged] has no result exactly when
    the palette is empty and some dataset of the group has [index()] 1: the
    remainder it then takes has divisor zero. *)
Theorem onThemeChanged_undefined (colors : QJsonArray) (dash : Dashboard)
  (w : State) group :
  (0 <= m_index w)%Z ->
  multiplots dash !! Z.to_nat (m_index w) = Some group ->
  onThemeChanged colors dash w = None <->
  colors = [] /\
  exists d, d ∈ JSON.Group.m_datasets group /\ Dataset_index d = 1%Z.
Proof.
  intros Hidx Hgroup. unfold Widgets.MultiPlot.onThemeChanged.
  assert (Hvalid : (0 <=? m_index w)%Z && (m_index w <? multiPlotCount dash)%Z
                   = true).
  { apply lookup_lt_Some in Hgroup. unfold multiPlotCount.
    apply andb_true_intro. split; [apply Z.leb_le | apply Z.ltb_lt]; lia. }
  rewrite Hvalid, Hgroup.
  destruct (Widgets.MultiPlot.assign_colors _ _ _ _ _) as [mc|] eqn:Ha.
  - split; [done |]. intros [Hc (d & Hd & Hi)].
    exfalso. enough (Hx : Some mc = None) by discriminate.
    rewrite <- Ha. apply assign_colors_none. exists d. split; [done |].
    apply pick_color_none. split; [done | lia].
  - apply assign_colors_none in Ha as (d & Hd & Hp).
    apply pick_color_none in Hp as [Hc Hi].
    split; [| done]. intros _. split; [done |]. exists d. split; [done | lia].
Qed.

Lemma append_curves_some (dash : Dashboard) curve (l : list nat) acc :
  resize_int (QPointF_null qreal_of_int) (points dash + 1) [] = Some curve ->
  foldl (append_curve qreal_of_int dash) (Some acc) l
  = Some (acc ++ replicate (length l) curve).
Proof.
  intros Hc. revert acc. induction l as [| x l IH]; intros acc; simpl.
  - by rewrite app_nil_r.
  - rewrite Hc, IH. by rewrite <- app_assoc.
Qed.

Lemma append_curves_none (dash : Dashboard) (l : list nat) :
  foldl (append_curve qreal_of_int dash) None l = None.
Proof. by induction l. Qed.

(** X19: [updateRange] on an index that is not a multiplot of the dashboard
    leaves the widget as it was. On a valid index, when [points()] is at
    least -1 and below the largest [int], it gives the widget one curve per
    dataset of the group, each of [points() + 1] null points, sets the X
    range to 0 and [points()] and keeps the colours. When [points()] is
    below -1 or is the largest [int] and the group has a dataset, the
    resize has no defined size and there is no result. *)
Theorem updateRange_shape (dash : Dashboard) (w : State) :
  ((m_index w < 0 \/ multiPlotCount dash <= m_index w)%Z ->
   updateRange dash w = Some w) /\
  (forall group,
     (0 <= m_index w)%Z ->
     multiplots dash !! Z.to_nat (m_index w) = Some group ->
     ((-1 <= points dash < INT_MAX)%Z ->
      updateRange dash w
      = Some (mkState (m_index w) (qreal_of_int 0)
                (qreal_of_int (points dash)) (m_minY w) (m_maxY w)
                (m_colors w)
                (replicate (JSON.Group.datasetCount group)
                   (replicate (Z.to_nat (points dash + 1))
                      (QPointF_null qreal_of_int)))
                (effects w ++ [Emit "rangeChanged"]))) /\
     ((points dash < -1 \/ INT_MAX <= points dash)%Z ->
      JSON.Group.m_datasets group <> [] ->
      updateRange dash w = None)).
Proof.
  unfold Widgets.MultiPlot.updateRange. split.
  - intros Hbad.
    destruct (m_index w <? 0)%Z eqn:H0; [done |].
    destruct (multiPlotCount dash <=? m_index w)%Z eqn:H1; [done |]. lia.
  - intros group Hidx Hgroup.
    pose proof (lookup_lt_Some _ _ _ Hgroup) as Hlt. unfold multiPlotCount.
    destruct (m_index w <? 0)%Z eqn:H0; [lia |].
    destruct (_ <=? m_index w)%Z eqn:H1; [lia |].
    cbn [orb]. rewrite Hgroup. split.
    + intros Hp.
      rewrite (append_curves_some dash
                 (replicate (Z.to_nat (points dash + 1))
                    (QPointF_null qreal_of_int))).
      * by rewrite length_seq.
      * unfold resize_int.
        destruct (points dash + 1 <? 0)%Z eqn:Hn; [lia |].
        destruct (INT_MAX <? points dash + 1)%Z eqn:Hm; [lia |].
        cbn [orb]. by rewrite resize_nil.
    + intros Hp Hd. unfold JSON.Group.datasetCount.
      destruct (JSON.Group.m_datasets group) as [| d l]; [done |].
      cbn [length seq foldl Widgets.MultiPlot.append_curve].
      assert (Hr : resize_int (QPointF_null qreal_of_int) (points dash + 1) []
                   = None).
      { unfold resize_int.
        destruct (points dash + 1 <? 0)%Z eqn:Hn; [done |].
        destruct (INT_MAX <? points dash + 1)%Z eqn:Hm; [done |]. lia. }
      rewrite Hr. by rewrite append_curves_none.
Qed.

(** *** Writing the points *)

Local Abbreviation points_of := (Widgets.MultiPlot.points_of qreal_of_int).

Lemma write_points_from values :
  forall (pre suf : list (@QPointF qreal)),
  length suf = length values ->
  write_points (length pre) values (pre ++ suf)
  = pre ++ imap (fun k v => (qreal_of_int (Z.of_nat (length pre + k)), v))
                values.
Proof.
  unfold QPointF.
  induction values as [| v rest IH]; intros pre suf Hlen.
  - destruct suf; [done | discriminate].
  - destruct suf as [| x suf]; [discriminate |]. simpl in Hlen.
    cbn [Widgets.MultiPlot.write_points]. unfold QPointF.
    rewrite insert_app_r_alt, Nat.sub_diag by lia. cbn [insert list_insert].
    replace (S (length pre)) with (length (pre ++ [(qreal_of_int (Z.of_nat (length pre)), v)]))
      by (rewrite length_app; simpl; lia).
    rewrite (cons_middle _ pre suf), app_assoc.
    rewrite IH by lia. rewrite <- app_assoc. f_equal.
    rewrite imap_cons, Nat.add_0_r. simpl. f_equal.
    apply imap_ext. intros j y _. simpl. rewrite length_app. simpl.
    do 3 f_equal. lia.
Qed.

Lemma write_points_resized values (curve : list (@QPointF qreal)) :
  write_points 0 values
    (if decide (length curve <> length values)
     then resize (QPointF_null qreal_of_int) (length values) curve
     else curve)
  = points_of values.
Proof.
  pose proof (write_points_from values []) as Hw. cbn [length app] in Hw.
  rewrite Hw; [reflexivity |].
  case_decide as Hd; [apply length_resize |].
  destruct (decide (length curve = length values)); [done | tauto].
Qed.

Lemma write_curves_from curves :
  forall (pre mid suf : list (list (@QPointF qreal))),
  length mid = length curves ->
  write_curves (length pre) curves (pre ++ mid ++ suf)
  = Some (pre ++ map points_of curves ++ suf).
Proof.
  unfold QPointF.
  induction curves as [| values rest IH]; intros pre mid suf Hlen.
  - destruct mid; [done | discriminate].
  - destruct mid as [| curve mid]; [discriminate |]. simpl in Hlen.
    cbn [Widgets.MultiPlot.write_curves].
    change ((curve :: mid) ++ suf) with (curve :: (mid ++ suf)).
    rewrite list_lookup_middle by done.
    rewrite write_points_resized. unfold QPointF.
    rewrite insert_app_r_alt, Nat.sub_diag by lia.
    cbn [insert list_insert app].
    specialize (IH (pre ++ [points_of values]) mid suf ltac:(lia)).
    rewrite length_app in IH. cbn [length] in IH.
    rewrite Nat.add_1_r, <- app_assoc in IH. cbn [app] in IH.
    rewrite IH. by rewrite <- app_assoc.
Qed.

Lemma write_curves_short curves :
  forall i (m_data : list (list (@QPointF qreal))),
  (i <= length m_data < i + length curves)%nat ->
  write_curves i curves m_data = None.
Proof.
  induction curves as [| values rest IH]; intros i m_data Hlen.
  - simpl in Hlen. lia.
  - cbn [Widgets.MultiPlot.write_curves].
    destruct (m_data !! i) as [curve|] eqn:Hc; [| done].
    apply lookup_lt_Some in Hc. apply IH.
    rewrite length_insert. simpl in Hlen. lia.
Qed.

(** X20: [updateData] on a valid index whose dashboard entry has no more
    curves than the widget replaces each of the widget's first curves by
    the points [(j, values[j])] of the dashboard's values, whatever the
    curve held and whatever its size was, and keeps the remaining curves;
    when the dashboard entry has more curves than the widget, indexing
    runs past the end of the widget's data and there is no result. *)
Theorem updateData_points (dash : Dashboard) (w : State) curves :
  (0 <= m_index w)%Z ->
  multiplotValues dash !! Z.to_nat (m_index w) = Some curves ->
  ((length curves <= length (m_data w))%nat ->
   updateData dash w
   = Some (mkState (m_index w) (m_minX w) (m_maxX w) (m_minY w) (m_maxY w)
                   (m_colors w)
                   (map points_of curves ++ drop (length curves) (m_data w))
                   (effects w))) /\
  ((length (m_data w) < length curves)%nat -> updateData dash w = None).
Proof.
  intros Hidx Hcurves. unfold Widgets.MultiPlot.updateData.
  assert (Hvalid : (0 <=? m_index w)%Z
                   && (m_index w <? Z.of_nat (length (multiplotValues dash)))%Z
                   = true).
  { apply lookup_lt_Some in Hcurves.
    apply andb_true_intro. split; [apply Z.leb_le | apply Z.ltb_lt]; lia. }
  rewrite Hvalid, Hcurves. split.
  - intros Hlen.
    pose proof (write_curves_from curves [] (take (length curves) (m_data w))
                  (drop (length curves) (m_data w))) as Hw.
    rewrite take_drop in Hw. cbn [length app] in Hw.
    rewrite Hw; [reflexivity |]. by rewrite length_take_le.
  - intros Hlen. rewrite write_curves_short; [done | lia].
Qed.

End WithDashboard.

(** *** On the sample dashboard *)

Lemma onThemeChanged_colors_witness :
  exists w',
    Widgets.MultiPlot.onThemeChanged Sample.d_index Scenario.palette
      Scenario.dashboard Scenario.widget = Some w' /\
    m_colors w' = ["#f00"; "#f00"; EmptyString].
Proof.
  destruct (onThemeChanged_colors Sample.d_index Scenario.palette
              Scenario.dashboard Scenario.widget Scenario.group_plot)
    as (w' & Hw & _ & Hc); [discriminate | reflexivity | reflexivity |].
  exists w'. split; [exact Hw |]. rewrite Hc. reflexivity.
Defined.

Lemma onThemeChanged_undefined_witness :
  Widgets.MultiPlot.onThemeChanged Sample.d_index [] Scenario.dashboard
    Scenario.widget = None.
Proof.
  apply (onThemeChanged_undefined Sample.d_index [] Scenario.dashboard
           Scenario.widget Scenario.group_plot); [reflexivity | reflexivity |].
  split; [reflexivity |]. exists (Sample.mkDataset 0 1 "A").
  split; [apply elem_of_cons; by left | reflexivity].
Defined.

Lemma updateRange_shape_witness :
  m_data Scenario.widget_ranged = replicate 3 (replicate 4 (0%Z, 0%Z)) /\
  m_maxX Scenario.widget_ranged = 3%Z /\
  Widgets.MultiPlot.updateRange (fun z => z) Scenario.dashboard_negative
    Scenario.widget = None.
Proof.
  destruct (updateRange_shape (fun z => z) Scenario.dashboard Scenario.widget)
    as [_ Hvalid].
  destruct (Hvalid Scenario.group_plot) as [Hok _];
    [reflexivity | reflexivity |].
  destruct (updateRange_shape (fun z => z) Scenario.dashboard_negative
              Scenario.widget) as [_ Hneg].
  destruct (Hneg Scenario.group_plot) as [_ Hnone];
    [reflexivity | reflexivity |].
  unfold Scenario.widget_ranged.
  rewrite Hok by (unfold INT_MAX; simpl; lia).
  split; [reflexivity |]. split; [reflexivity |].
  apply Hnone; [left; simpl; lia | discriminate].
Defined.

Lemma updateData_points_witness :
  m_data <$> Widgets.MultiPlot.updateData (fun z => z) Scenario.dashboard
               Scenario.widget_ranged
  = Some [[(0, 10); (1, 20)]; [(0, 30); (1, 40); (2, 50)];
          replicate 4 (0, 0)]%Z /\
  Widgets.MultiPlot.updateData (fun z => z) Scenario.dashboard Scenario.widget
  = None.
Proof.
  destruct (updateData_points (fun z => z) Scenario.dashboard
              Scenario.widget_ranged [[10; 20]; [30; 40; 50]]%Z)
    as [Hok _]; [reflexivity | reflexivity |].
  destruct (updateData_points (fun z => z) Scenario.dashboard
              Scenario.widget [[10; 20]; [30; 40; 50]]%Z)
    as [_ Hbad]; [reflexivity | reflexivity |].
  split.
  - rewrite Hok; [reflexivity | vm_compute; lia].
  - apply Hbad. vm_compute. lia.
Defined.

End MultiPlotFacts.
